(** * Kinetic sculpture (multiple_lights.cpp): mesh topology, surface sampler,
      light animator and viewport guard

    The development embeds the pure parts of [src/multiple_lights.cpp]:

    - [Int32]: the C++ [int] (32 bits, two's complement, wrap-around written
      out), [%] as truncated remainder, and the conversions to
      [unsigned int] and [size_t];
    - [Loops]: the counted [for] loop of the source;
    - [Topology]: the [toIndex] lambda and the index loop of [makeSculpture],
      together with the two [reserve] calls that precede it;
    - [Float32]: IEEE-754 binary32 ([float]) through [SpecFloat], used where a
      statement is about special values (zero, infinity, NaN), about the
      conversion of an [int] or about exact equality of floats: the aspect
      ratio of the projection, the texture coordinates stored in the vertex
      buffer, the arguments of [sin] and [cos] in the light animator;
    - [Ideal]: the surface sampler and the light animator over the real
      numbers, that is with rounding left out, used where a statement is
      about the formulas themselves.

    Conventions.  Overflow of a signed [int] and [%] by zero are undefined
    in C++; the model gives the first the wrap-around of the two's
    complement targets the program is built for, and no statement below
    relies on the second ([toIndex] is only run with [colSegments > 0]).
    The functions of glm follow its generic implementation
    (detail/func_geometric.inl, detail/func_exponential.inl).  Calls into
    OpenGL and GLFW are left out: they take no part in the values studied
    here. *)

From Stdlib Require Import ZArith List Lia Bool.
From Stdlib Require Import Reals Lra.
From Stdlib Require Import Floats.SpecFloat.
Import ListNotations.

Local Open Scope Z_scope.

(** ** 32-bit [int] *)

Module Int32.

Definition INT_MAX : Z := 2147483647.
Definition INT_MIN : Z := -2147483648.

(** Reduction of a mathematical integer to the [int] that a two's complement
    machine keeps. *)
Definition wrap (z : Z) : Z := (z + 2147483648) mod 4294967296 - 2147483648.

Definition add (a b : Z) : Z := wrap (a + b).
Definition sub (a b : Z) : Z := wrap (a - b).
Definition mul (a b : Z) : Z := wrap (a * b).

(** [a % b]: the remainder of the division that truncates toward zero. *)
Definition rem (a b : Z) : Z := Z.rem a b.

(** [int] to [unsigned int]. *)
Definition to_unsigned (z : Z) : Z := z mod 4294967296.

(** [int] to [size_t] (64 bits). *)
Definition to_size_t (z : Z) : Z := z mod 18446744073709551616.

Definition in_range (z : Z) : Prop := INT_MIN <= z <= INT_MAX.

End Int32.

(** ** Counted loops *)

Module Loops.

(** [for (int i = start; i < n; ++i) s = body(i, s);] with [fuel] bounding
    the number of iterations. *)
Fixpoint for_loop {S : Type} (fuel : nat) (i n : Z) (body : Z -> S -> S) (s : S) : S :=
  match fuel with
  | O => s
  | Datatypes.S fuel' =>
      if i <? n then for_loop fuel' (Int32.add i 1) n body (body i s) else s
  end.

(** [for (int i = 0; i < n; ++i)]: the loop leaves after [max n 0]
    iterations, which is the fuel given. *)
Definition for_upto {S : Type} (n : Z) (body : Z -> S -> S) (s : S) : S :=
  for_loop (Z.to_nat n) 0 n body s.

(** The values [start, start+1, ...] taken by the counter. *)
Fixpoint zseq (start : Z) (len : nat) : list Z :=
  match len with
  | O => []
  | Datatypes.S k => start :: zseq (start + 1) k
  end.

End Loops.

(** ** The index buffer of [makeSculpture] *)

Module Topology.

(** What a call either gives back or throws.  [std::vector::reserve] throws
    [std::length_error] when asked for more than [max_size()] elements. *)
Inductive outcome (A : Type) : Type :=
| Returned (a : A)
| LengthError.
Arguments Returned {A} a.
Arguments LengthError {A}.

(** [max_size()] of a vector of 4-byte elements on a 64-bit target. *)
Definition vector_max_size : Z := 2305843009213693951.

(** [vec.reserve(n)] with [n] an [int]: the argument is converted to
    [size_t] first, so that a negative [n] becomes a huge request. *)
Definition reserve (n : Z) : outcome unit :=
  if Int32.to_size_t n >? vector_max_size then LengthError else Returned tt.

(** The lambda [toIndex], with its capture [colSegments] first. *)
Definition toIndex (colSegments r c : Z) : Z :=
  let C := Int32.rem (Int32.add c colSegments) colSegments in
  Int32.add (Int32.mul r colSegments) C.

(** The six [unsigned int] pushed for the quad at ([r], [c]). *)
Definition quad (colSegments r c : Z) : list Z :=
  let i0 := Int32.to_unsigned (toIndex colSegments r c) in
  let i1 := Int32.to_unsigned (toIndex colSegments r (Int32.add c 1)) in
  let i2 := Int32.to_unsigned (toIndex colSegments (Int32.add r 1) c) in
  let i3 := Int32.to_unsigned (toIndex colSegments (Int32.add r 1) (Int32.add c 1)) in
  [i0; i2; i1; i1; i2; i3].

(** The second pair of loops of [makeSculpture]; the state is [idx]. *)
Definition buildIndices (rowRings colSegments : Z) : list Z :=
  Loops.for_upto (Int32.sub rowRings 1)
    (fun r idx =>
       Loops.for_upto colSegments
         (fun c idx => idx ++ quad colSegments r c) idx)
    [].

(** What [makeSculpture] hands over: the content of the element buffer and
    the field [indexCount] ([GLsizei] is a 32-bit [int]). *)
Record Mesh : Type := mkMesh { indices : list Z; indexCount : Z }.

(** [makeSculpture], index side: the two [reserve] calls, then the index
    loops.  The vertex loop between them only appends floats to [v] and
    cannot throw; it is modelled in [Ideal].  Exhaustion of memory is not
    modelled. *)
Definition makeSculpture (rowRings colSegments : Z) : outcome Mesh :=
  match reserve (Int32.mul (Int32.mul rowRings colSegments) 8) with
  | LengthError => LengthError
  | Returned _ =>
      match reserve (Int32.mul (Int32.mul (Int32.sub rowRings 1) colSegments) 6) with
      | LengthError => LengthError
      | Returned _ =>
          let idx := buildIndices rowRings colSegments in
          Returned (mkMesh idx (Int32.wrap (Z.of_nat (length idx))))
      end
  end.

(** A call that ends in an error instead of a mesh. *)
Definition fails {A : Type} (o : outcome A) : bool :=
  match o with
  | Returned _ => false
  | LengthError => true
  end.

(** Every index designates one of the [n] vertices. *)
Definition indices_valid (n : Z) (idx : list Z) : Prop :=
  Forall (fun i => 0 <= i < n) idx.

End Topology.

(** ** [float] as IEEE-754 binary32 *)

Module Float32.

Definition prec : Z := 24.
Definition emax : Z := 128.

Definition float : Type := spec_float.

Definition fadd : float -> float -> float := SFadd prec emax.
Definition fsub : float -> float -> float := SFsub prec emax.
Definition fmul : float -> float -> float := SFmul prec emax.
Definition fdiv : float -> float -> float := SFdiv prec emax.
Definition fsqrt : float -> float := SFsqrt prec emax.
Definition fneg : float -> float := SFopp.

(** [(float)z] for an [int] [z], rounded to nearest even. *)
Definition of_int (z : Z) : float := binary_normalize prec emax z 0 false.

Definition zero : float := S754_zero false.
Definition one : float := of_int 1.
Definition nan : float := S754_nan.
Definition infinity : float := S754_infinity false.

Definition is_zero (x : float) : bool :=
  match x with S754_zero _ => true | _ => false end.

(** Neither an infinity nor a NaN. *)
Definition is_finite (x : float) : bool :=
  match x with S754_zero _ | S754_finite _ _ _ => true | _ => false end.

Definition is_nan (x : float) : bool :=
  match x with S754_nan => true | _ => false end.

(** [glm::vec3]. *)
Record vec3 : Type := mkVec3 { vx : float; vy : float; vz : float }.

(** [glm::cross]. *)
Definition cross (x y : vec3) : vec3 :=
  mkVec3 (fsub (fmul (vy x) (vz y)) (fmul (vy y) (vz x)))
         (fsub (fmul (vz x) (vx y)) (fmul (vz y) (vx x)))
         (fsub (fmul (vx x) (vy y)) (fmul (vx y) (vy x))).

(** [glm::dot] on [vec3]: the componentwise product, then [x + y + z]. *)
Definition dot (a b : vec3) : float :=
  fadd (fadd (fmul (vx a) (vx b)) (fmul (vy a) (vy b))) (fmul (vz a) (vz b)).

(** [glm::inversesqrt]: [1 / sqrt(x)]. *)
Definition inversesqrt (x : float) : float := fdiv one (fsqrt x).

(** [glm::normalize]: [v * inversesqrt(dot(v, v))], with no test on the
    length. *)
Definition normalize (v : vec3) : vec3 :=
  let k := inversesqrt (dot v v) in
  mkVec3 (fmul (vx v) k) (fmul (vy v) k) (fmul (vz v) k).

(** Lines 97-99 of [makeSculpture]: the normal [nrm] from [radius] and from
    the values [sinTheta], [cosTheta] returned by [sin(theta)] and
    [cos(theta)].  Where [sin] and [cos] resolve to the [double] overloads
    the two products of [tTheta] are formed in binary64 and rounded by the
    constructor of [vec3]; a product by a zero is the same zero there. *)
Definition sampleNormal (radius sinTheta cosTheta : float) : vec3 :=
  let tTheta := mkVec3 (fmul (fneg radius) sinTheta) zero (fmul radius cosTheta) in
  let tY := mkVec3 zero one zero in
  normalize (cross tTheta tY).

(** [vParam], line 75: [(float)r / (rowRings - 1)], the divisor converted
    to [float] for the division. *)
Definition vParam (rowRings r : Z) : float :=
  fdiv (of_int r) (of_int (Int32.sub rowRings 1)).

(** [uParam], line 78: [(float)c / colSegments]. *)
Definition uParam (colSegments c : Z) : float :=
  fdiv (of_int c) (of_int colSegments).

(** Every [int] of magnitude up to 2^24 converts to [float] without
    rounding. *)
Definition exact_int_bound : Z := 16777216.

(** The aspect ratio handed to [glm::perspective] at line 215:
    [w > 0 ? (float)w / h : 1.0f]. *)
Definition aspect (w h : Z) : float :=
  if w >? 0 then fdiv (of_int w) (of_int h) else one.

(** The texture coordinates that line 101 appends to [v] as the last two
    floats of each vertex, in the order of the vertex loops (lines 74-103):
    [vParam] is computed once per ring (line 75), [uParam] once per segment
    (line 78).  Each pair is ([uParam], [vParam]). *)
Definition makeTexcoords (rowRings colSegments : Z) : list (float * float) :=
  Loops.for_upto rowRings
    (fun r v =>
       let vP := vParam rowRings r in
       Loops.for_upto colSegments
         (fun c v => let uP := uParam colSegments c in v ++ [(uP, vP)]) v)
    [].

(** The literal [0.7f]: the binary32 nearest to 7/10. *)
Definition c0_7 : float := fdiv (of_int 7) (of_int 10).

(** [glm::half_pi<float>()]: the binary32 nearest to pi/2, which is
    13176795 * 2^-23 = 1.57079637... *)
Definition half_pi : float := S754_finite false 13176795 (-23).

(** [phase], line 220: [i * glm::half_pi<float>()], with [i] converted to
    [float] for the product. *)
Definition phase (i : Z) : float := fmul (of_int i) half_pi.

(** The argument [g_time * 0.7f + phase] of [sin] and [cos] at lines
    221-222, as the [float] operations compute it. *)
Definition orbitAngle (g_time : float) (i : Z) : float :=
  fadd (fmul g_time c0_7) (phase i).

End Float32.

(** ** The sampler and the light animator over the reals

    Every [float] is read as the real number it stands for and every
    operation as the exact one.  A quotient by zero has no such reading (in
    binary32 it is an infinity or a NaN, see [Float32]); the statements made
    on this model keep to grids of at least two rings and to segments and
    rings of the grid, where no divisor is zero. *)

Module Ideal.

Local Open Scope R_scope.

(** [glm::vec3], with real components. *)
Record vec3 : Type := mkVec3 { vx : R; vy : R; vz : R }.

Definition two_pi : R := 2 * PI.
Definition half_pi : R := PI / 2.

Definition cross (x y : vec3) : vec3 :=
  mkVec3 (vy x * vz y - vy y * vz x)
         (vz x * vx y - vz y * vx x)
         (vx x * vy y - vx y * vy x).

Definition dot (a b : vec3) : R :=
  vx a * vx b + vy a * vy b + vz a * vz b.

Definition inversesqrt (x : R) : R := 1 / sqrt x.

Definition scale (v : vec3) (k : R) : vec3 :=
  mkVec3 (vx v * k) (vy v * k) (vz v * k).

Definition normalize (v : vec3) : vec3 := scale v (inversesqrt (dot v v)).

(** [glm::length]. *)
Definition length (v : vec3) : R := sqrt (dot v v).

(** [powf(x, y)] for a base [x >= 0] and an exponent [y > 0], the only use
    made of it: 0 at 0, [exp (y * ln x)] elsewhere. *)
Definition powf (x y : R) : R :=
  if Req_dec_T x 0 then 0 else Rpower x y.

(** [cond >= 0 ? 1 : -1]. *)
Definition sign_of (x : R) : R := if Rle_dec 0 x then 1 else -1.

(** [vParam], line 75. *)
Definition vParam (rowRings r : Z) : R := IZR r / IZR (Int32.sub rowRings 1).

(** [y], line 76. *)
Definition height (rowRings r : Z) : R := (vParam rowRings r - 0.5) * 3.0.

(** [uParam], line 78. *)
Definition uParam (colSegments c : Z) : R := IZR c / IZR colSegments.

(** [theta], line 79. *)
Definition theta (colSegments c : Z) : R := uParam colSegments c * two_pi.

(** [r0], lines 82-87: the superellipse with radii 1 and 0.5 and exponent
    2.5, as a function of the angle. *)
Definition r0 (th : R) : R :=
  let a := 1.0 in
  let b := 0.5 in
  let n := 2.5 in
  let cx := powf (Rabs (cos th)) (2 / n) * a * sign_of (cos th) in
  let cz := powf (Rabs (sin th)) (2 / n) * b * sign_of (sin th) in
  sqrt (cx * cx + cz * cz).

(** [wave], line 89. *)
Definition wave (g_time u v : R) : R :=
  0.25 * sin (6.0 * u * two_pi - 4.0 * v * two_pi + g_time * 1.5).

(** [radius], line 90. *)
Definition radius (rowRings colSegments : Z) (g_time : R) (r c : Z) : R :=
  r0 (theta colSegments c)
  * (1.0 + wave g_time (uParam colSegments c) (vParam rowRings r)).

(** [nrm], lines 97-99, from the radius and the angle. *)
Definition normalAt (rad th : R) : vec3 :=
  let tTheta := mkVec3 (- rad * sin th) 0.0 (rad * cos th) in
  let tY := mkVec3 0.0 1.0 0.0 in
  normalize (cross tTheta tY).

(** The eight floats of one vertex: position, normal, texcoord. *)
Record Vertex : Type :=
  mkVertex { pos : vec3; nrm : vec3; tex_u : R; tex_v : R }.

(** The body of the inner vertex loop, lines 78-101. *)
Definition sampleVertex (rowRings colSegments : Z) (g_time : R) (r c : Z) : Vertex :=
  let vP := vParam rowRings r in
  let y := height rowRings r in
  let uP := uParam colSegments c in
  let th := theta colSegments c in
  let rad := radius rowRings colSegments g_time r c in
  let x := rad * cos th in
  let z := rad * sin th in
  mkVertex (mkVec3 x y z) (normalAt rad th) uP vP.

(** The vertex loops of [makeSculpture], lines 74-103; the state is [v],
    kept as one record per group of eight floats. *)
Definition makeVertices (rowRings colSegments : Z) (g_time : R) : list Vertex :=
  Loops.for_upto rowRings
    (fun r v =>
       Loops.for_upto colSegments
         (fun c v => v ++ [sampleVertex rowRings colSegments g_time r c]) v)
    [].

(** *** Light animator *)

(** The global array [pointLights] as the program starts. *)
Definition pointLights_init : list vec3 :=
  [ mkVec3 1.5 1.2 1.5;
    mkVec3 (-1.8) 1.0 1.2;
    mkVec3 1.6 1.5 (-1.6);
    mkVec3 (-1.4) 1.4 (-1.3) ].

Definition set_x (a : R) (p : vec3) : vec3 := mkVec3 a (vy p) (vz p).
Definition set_y (a : R) (p : vec3) : vec3 := mkVec3 (vx p) a (vz p).
Definition set_z (a : R) (p : vec3) : vec3 := mkVec3 (vx p) (vy p) a.

(** [arr[i] = f(arr[i])] on an array kept as a list. *)
Fixpoint update (i : nat) (f : vec3 -> vec3) (arr : list vec3) : list vec3 :=
  match arr, i with
  | [], _ => []
  | p :: rest, O => f p :: rest
  | p :: rest, Datatypes.S k => p :: update k f rest
  end.

(** [phase], line 220. *)
Definition phase (i : Z) : R := IZR i * half_pi.

(** The argument [g_time * 0.7f + phase] of [sin] and [cos] at lines
    221-222. *)
Definition orbitAngle (g_time : R) (i : Z) : R := g_time * 0.7 + phase i.

(** The body of the loop at lines 219-224: three stores into
    [pointLights[i]]. *)
Definition animateLight (g_time : R) (i : Z) (lights : list vec3) : list vec3 :=
  let lights := update (Z.to_nat i) (set_x (1.8 * sin (orbitAngle g_time i))) lights in
  let lights := update (Z.to_nat i) (set_z (1.8 * cos (orbitAngle g_time i))) lights in
  update (Z.to_nat i) (set_y (1.0 + 0.4 * sin (g_time * 1.3 + IZR i))) lights.

(** The loop itself. *)
Definition animateLights (g_time : R) (lights : list vec3) : list vec3 :=
  Loops.for_upto 4%Z (animateLight g_time) lights.

(** [pointLights[i]]. *)
Definition light (lights : list vec3) (i : Z) : vec3 :=
  nth (Z.to_nat i) lights (mkVec3 0 0 0).

End Ideal.

(** ** How the element buffer is drawn *)

Module Faces.

(** [glDrawElements(GL_TRIANGLES, ...)], line 265: every three consecutive
    indices make one triangle. *)
Fixpoint triangles (idx : list Z) : list (Z * Z * Z) :=
  match idx with
  | a :: b :: c :: rest => (a, b, c) :: triangles rest
  | _ => []
  end.

(** A triangle with three different corners. *)
Definition non_degenerate (t : Z * Z * Z) : Prop :=
  let '(a, b, c) := t in a <> b /\ b <> c /\ a <> c.

End Faces.

(** ** Camera and model transform over the reals *)

Module Scene.

Import Ideal.

Local Open Scope R_scope.

(** [glm::vec4] and [glm::mat4]; a matrix is kept as its four columns, as
    glm does ([m[i]] is column [i]). *)
Record vec4 : Type := mkVec4 { wx : R; wy : R; wz : R; ww : R }.
Record mat4 : Type :=
  mkMat4 { col0 : vec4; col1 : vec4; col2 : vec4; col3 : vec4 }.

Definition vadd4 (a b : vec4) : vec4 :=
  mkVec4 (wx a + wx b) (wy a + wy b) (wz a + wz b) (ww a + ww b).

Definition vscale4 (a : vec4) (k : R) : vec4 :=
  mkVec4 (wx a * k) (wy a * k) (wz a * k) (ww a * k).

(** [glm::mat4(1.0f)]. *)
Definition identity : mat4 :=
  mkMat4 (mkVec4 1 0 0 0) (mkVec4 0 1 0 0) (mkVec4 0 0 1 0) (mkVec4 0 0 0 1).

Definition sub3 (a b : vec3) : vec3 :=
  mkVec3 (vx a - vx b) (vy a - vy b) (vz a - vz b).

(** [glm::lookAt] (right-handed, the default): [f], [s], [u] are the
    forward, side and up directions of the camera. *)
Definition lookAt (eye center up : vec3) : mat4 :=
  let f := normalize (sub3 center eye) in
  let s := normalize (cross f up) in
  let u := cross s f in
  mkMat4 (mkVec4 (vx s) (vx u) (- vx f) 0)
         (mkVec4 (vy s) (vy u) (- vy f) 0)
         (mkVec4 (vz s) (vz u) (- vz f) 0)
         (mkVec4 (- dot s eye) (- dot u eye) (dot f eye) 1).

(** [pos] in [makeView], lines 51-54. *)
Definition cameraPosition (g_time : R) : vec3 :=
  let radius := 6.5 in
  let camX := sin (g_time * 0.3) * radius in
  let camZ := cos (g_time * 0.3) * radius in
  mkVec3 camX 3.0 camZ.

(** [makeView], lines 50-56. *)
Definition makeView (g_time : R) : mat4 :=
  lookAt (cameraPosition g_time) (mkVec3 0 0 0) (mkVec3 0 1 0).

(** [glm::rotate(m, angle, v)]. *)
Definition rotate (m : mat4) (angle : R) (v : vec3) : mat4 :=
  let c := cos angle in
  let s := sin angle in
  let axis := normalize v in
  let temp := mkVec3 ((1 - c) * vx axis) ((1 - c) * vy axis) ((1 - c) * vz axis) in
  let r00 := c + vx temp * vx axis in
  let r01 := vx temp * vy axis + s * vz axis in
  let r02 := vx temp * vz axis - s * vy axis in
  let r10 := vy temp * vx axis - s * vz axis in
  let r11 := c + vy temp * vy axis in
  let r12 := vy temp * vz axis + s * vx axis in
  let r20 := vz temp * vx axis + s * vy axis in
  let r21 := vz temp * vy axis - s * vx axis in
  let r22 := c + vz temp * vz axis in
  mkMat4
    (vadd4 (vadd4 (vscale4 (col0 m) r00) (vscale4 (col1 m) r01)) (vscale4 (col2 m) r02))
    (vadd4 (vadd4 (vscale4 (col0 m) r10) (vscale4 (col1 m) r11)) (vscale4 (col2 m) r12))
    (vadd4 (vadd4 (vscale4 (col0 m) r20) (vscale4 (col1 m) r21)) (vscale4 (col2 m) r22))
    (col3 m).

(** [model], lines 232-233: the slow spin about the vertical axis. *)
Definition modelMatrix (g_time : R) : mat4 :=
  rotate identity (g_time * 0.25) (mkVec3 0 1 0).

(** The product of a matrix by a column vector, [m * v]. *)
Definition transform (m : mat4) (v : vec4) : vec4 :=
  vadd4 (vadd4 (vscale4 (col0 m) (wx v)) (vscale4 (col1 m) (wy v)))
        (vadd4 (vscale4 (col2 m) (wz v)) (vscale4 (col3 m) (ww v))).

(** The product of two matrices, column by column. *)
Definition mat_mul (a b : mat4) : mat4 :=
  mkMat4 (transform a (col0 b)) (transform a (col1 b))
         (transform a (col2 b)) (transform a (col3 b)).

(** [vec4(p, 1.0)] and [vec3(v)]. *)
Definition point (p : vec3) : vec4 := mkVec4 (vx p) (vy p) (vz p) 1.
Definition xyz (v : vec4) : vec3 := mkVec3 (wx v) (wy v) (wz v).

(** The square of the distance of a point to the vertical axis. *)
Definition axisDistance2 (p : vec3) : R := vx p * vx p + vz p * vz p.

(** The near and far planes handed to [glm::perspective], line 215. *)
Definition zNear : R := 0.1.
Definition zFar : R := 100.0.

(** The frame of the camera at time [g_time]: side, up and backward
    directions, then the position.  It is the inverse of [makeView]. *)
Definition cameraFrame (g_time : R) : mat4 :=
  let ex := sin (g_time * 0.3) * 6.5 in
  let ez := cos (g_time * 0.3) * 6.5 in
  let n := sqrt 51.25 in
  mkMat4 (mkVec4 (ez / 6.5) 0 (- ex / 6.5) 0)
         (mkVec4 (- 3 * ex / (6.5 * n)) (6.5 / n) (- 3 * ez / (6.5 * n)) 0)
         (mkVec4 (ex / n) (3 / n) (ez / n) 0)
         (mkVec4 ex 3 ez 1).

End Scene.

(** * Facts about the integer model *)

(** Side conditions on the range of an [int]. *)
Ltac int_lia := unfold Int32.in_range, Int32.INT_MIN, Int32.INT_MAX in *; lia.
Ltac int_nia := unfold Int32.in_range, Int32.INT_MIN, Int32.INT_MAX in *; nia.

Section Int32Facts.

Lemma wrap_id z : Int32.in_range z -> Int32.wrap z = z.
Proof.
  unfold Int32.in_range, Int32.INT_MIN, Int32.INT_MAX, Int32.wrap.
  intros Hz. rewrite Z.mod_small; lia.
Qed.

Lemma to_unsigned_id z : 0 <= z <= Int32.INT_MAX -> Int32.to_unsigned z = z.
Proof.
  unfold Int32.INT_MAX, Int32.to_unsigned. intros Hz.
  apply Z.mod_small. lia.
Qed.

Lemma wrap_id_sub1 x :
  Int32.INT_MIN < x <= Int32.INT_MAX -> Int32.sub x 1 = x - 1.
Proof.
  intros Hx. unfold Int32.sub. apply wrap_id. unfold Int32.in_range.
  int_lia.
Qed.

End Int32Facts.

Section LoopFacts.

Import Loops.

Context {S : Type}.

Lemma zseq_length start len : length (zseq start len) = len.
Proof.
  revert start. induction len as [|k IH]; intros start; simpl; [reflexivity|].
  now rewrite IH.
Qed.

Lemma zseq_In x start len :
  In x (zseq start len) <-> start <= x < start + Z.of_nat len.
Proof.
  revert start. induction len as [|k IH]; intros start; simpl.
  - lia.
  - rewrite IH. lia.
Qed.

(** With fuel for every remaining iteration the loop visits
    [i, i+1, ..., n-1] in order and stops on its test. *)
Lemma for_loop_fold (body : Z -> S -> S) fuel :
  forall i n s,
    Int32.INT_MIN <= i -> n <= Int32.INT_MAX ->
    n - i <= Z.of_nat fuel ->
    for_loop fuel i n body s =
    fold_left (fun s j => body j s) (zseq i (Z.to_nat (n - i))) s.
Proof.
  induction fuel as [|k IH]; intros i n s Hi Hn Hfuel.
  - simpl. replace (Z.to_nat (n - i)) with O by lia. reflexivity.
  - simpl. destruct (Z.ltb_spec i n) as [Hlt|Hge].
    + assert (Hadd : Int32.add i 1 = i + 1).
      { unfold Int32.add. apply wrap_id. unfold Int32.in_range.
        int_lia. }
      rewrite Hadd.
      replace (Z.to_nat (n - i)) with (Datatypes.S (Z.to_nat (n - (i + 1)))) by lia.
      simpl. apply IH; unfold Int32.INT_MIN in *; lia.
    + replace (Z.to_nat (n - i)) with O by lia. reflexivity.
Qed.

(** Fuel beyond the number of iterations changes nothing. *)
Lemma for_loop_fuel_irrelevant (body : Z -> S -> S) fuel fuel' i n s :
  Int32.INT_MIN <= i -> n <= Int32.INT_MAX ->
  n - i <= Z.of_nat fuel -> n - i <= Z.of_nat fuel' ->
  for_loop fuel i n body s = for_loop fuel' i n body s.
Proof.
  intros Hi Hn Hf Hf'. now rewrite !for_loop_fold by assumption.
Qed.

Lemma for_upto_fold (body : Z -> S -> S) n s :
  n <= Int32.INT_MAX ->
  for_upto n body s = fold_left (fun s j => body j s) (zseq 0 (Z.to_nat n)) s.
Proof.
  intros Hn. unfold for_upto.
  rewrite for_loop_fold; unfold Int32.INT_MIN; try lia.
  now rewrite Z.sub_0_r.
Qed.

End LoopFacts.

Section AppendLoops.

Import Loops.

Context {A : Type}.

Lemma fold_left_append (body : Z -> list A -> list A) (f : Z -> list A) l acc :
  (forall j s, body j s = s ++ f j) ->
  fold_left (fun s j => body j s) l acc = acc ++ flat_map f l.
Proof.
  intros Hbody. revert acc. induction l as [|j l IH]; intros acc; simpl.
  - now rewrite app_nil_r.
  - rewrite IH, Hbody. now rewrite app_assoc.
Qed.

(** A loop whose body appends [f i] to a vector builds the concatenation of
    the pieces. *)
Lemma for_upto_append (body : Z -> list A -> list A) (f : Z -> list A) n acc :
  n <= Int32.INT_MAX ->
  (forall j s, body j s = s ++ f j) ->
  for_upto n body acc = acc ++ flat_map f (zseq 0 (Z.to_nat n)).
Proof.
  intros Hn Hbody. rewrite for_upto_fold by exact Hn.
  now apply fold_left_append.
Qed.

Lemma flat_map_length_const {B : Type} (f : B -> list A) k l :
  (forall x, In x l -> length (f x) = k) ->
  length (flat_map f l) = (length l * k)%nat.
Proof.
  induction l as [|x l IH]; intros Hk; simpl; [reflexivity|].
  rewrite length_app, IH, (Hk x).
  - reflexivity.
  - now left.
  - intros y Hy. apply Hk. now right.
Qed.

Lemma flat_map_singleton {B : Type} (f : B -> A) l :
  flat_map (fun x => [f x]) l = map f l.
Proof. induction l as [|x l IH]; simpl; [reflexivity|now rewrite IH]. Qed.

End AppendLoops.

Section TopologyFacts.

Import Loops Topology.

(** The grid of quads: ring after ring, segment after segment. *)
Lemma buildIndices_flat_map rowRings colSegments :
  Int32.INT_MIN < rowRings <= Int32.INT_MAX ->
  colSegments <= Int32.INT_MAX ->
  buildIndices rowRings colSegments =
  flat_map (fun r => flat_map (quad colSegments r) (zseq 0 (Z.to_nat colSegments)))
           (zseq 0 (Z.to_nat (rowRings - 1))).
Proof.
  intros Hr Hc. unfold buildIndices.
  rewrite wrap_id_sub1 by exact Hr.
  rewrite (for_upto_append _
             (fun r => flat_map (quad colSegments r) (zseq 0 (Z.to_nat colSegments)))).
  - reflexivity.
  - unfold Int32.INT_MAX in *. lia.
  - intros r s. now apply for_upto_append.
Qed.

(** Inside a grid that fits in an [int], [toIndex] is the row-major slot of
    ([r], [c mod colSegments]). *)
Lemma toIndex_small colSegments r c :
  0 < colSegments -> 0 <= r -> 0 <= c <= colSegments ->
  (r + 1) * colSegments <= Int32.INT_MAX ->
  2 * colSegments <= Int32.INT_MAX ->
  toIndex colSegments r c = r * colSegments + c mod colSegments.
Proof.
  intros Hcs Hr Hc Hfit H2.
  unfold toIndex, Int32.add, Int32.mul, Int32.rem.
  assert (Hmod : 0 <= c mod colSegments < colSegments) by (apply Z.mod_pos_bound; lia).
  assert (Hrc : 0 <= r * colSegments) by nia.
  rewrite (wrap_id (c + colSegments)).
  2:{ int_lia. }
  rewrite Z.rem_mod_nonneg by lia.
  replace (c + colSegments) with (c + 1 * colSegments) by ring.
  rewrite Z_mod_plus_full.
  rewrite (wrap_id (r * colSegments)).
  2:{ int_nia. }
  apply wrap_id.
  int_nia.
Qed.

Lemma toIndex_bounds rowRings colSegments r c :
  0 < colSegments -> 0 <= r < rowRings -> 0 <= c <= colSegments ->
  rowRings * colSegments <= Int32.INT_MAX ->
  2 * colSegments <= Int32.INT_MAX ->
  0 <= Int32.to_unsigned (toIndex colSegments r c) < rowRings * colSegments.
Proof.
  intros Hcs Hr Hc Hfit H2.
  assert (Hmod : 0 <= c mod colSegments < colSegments) by (apply Z.mod_pos_bound; lia).
  assert (Hrow : (r + 1) * colSegments <= rowRings * colSegments) by nia.
  rewrite toIndex_small by lia.
  rewrite to_unsigned_id by nia. nia.
Qed.

Lemma quad_length colSegments r c : length (quad colSegments r c) = 6%nat.
Proof. reflexivity. Qed.

Lemma quad_valid rowRings colSegments r c :
  0 <= r < rowRings - 1 -> 0 <= c < colSegments ->
  rowRings * colSegments <= Int32.INT_MAX ->
  2 * colSegments <= Int32.INT_MAX ->
  indices_valid (rowRings * colSegments) (quad colSegments r c).
Proof.
  intros Hr Hc Hfit H2.
  assert (Hrc : (r + 2) * colSegments <= rowRings * colSegments) by nia.
  assert (Hr1 : Int32.add r 1 = r + 1).
  { unfold Int32.add. apply wrap_id.
    int_nia. }
  assert (Hc1 : Int32.add c 1 = c + 1).
  { unfold Int32.add. apply wrap_id.
    int_lia. }
  unfold indices_valid, quad. rewrite Hr1, Hc1.
  repeat (apply Forall_cons; [apply toIndex_bounds; lia|]).
  apply Forall_nil.
Qed.

(** A grid with at least one ring, small enough for the first [reserve] not
    to overflow, is built without error: six indices a quad, each of them a
    slot of the vertex buffer. *)
Lemma makeSculpture_small rowRings colSegments :
  1 <= rowRings <= Int32.INT_MAX -> 0 <= colSegments ->
  rowRings * colSegments * 8 <= Int32.INT_MAX ->
  exists idx,
    makeSculpture rowRings colSegments =
      Returned (mkMesh idx ((rowRings - 1) * colSegments * 6)) /\
    Z.of_nat (length idx) = (rowRings - 1) * colSegments * 6 /\
    indices_valid (rowRings * colSegments) idx.
Proof.
  intros Hr Hc Hfit.
  assert (Hrc : 0 <= rowRings * colSegments) by nia.
  assert (Hcs : colSegments <= rowRings * colSegments) by nia.
  assert (Hq : 0 <= (rowRings - 1) * colSegments <= rowRings * colSegments) by nia.
  assert (Hlen : Z.of_nat (length (buildIndices rowRings colSegments)) =
                 (rowRings - 1) * colSegments * 6).
  { rewrite buildIndices_flat_map by (int_lia).
    rewrite (flat_map_length_const _ (Z.to_nat colSegments * 6)%nat).
    - rewrite zseq_length, !Nat2Z.inj_mul, !Z2Nat.id by lia.
      change (Z.of_nat 6) with 6. ring.
    - intros r _. rewrite (flat_map_length_const _ 6%nat).
      + now rewrite zseq_length.
      + intros c _. apply quad_length. }
  exists (buildIndices rowRings colSegments). split; [|split].
  - unfold makeSculpture, reserve, Int32.mul, Int32.sub, Int32.to_size_t.
    rewrite (wrap_id (rowRings * colSegments))
      by (int_lia).
    rewrite (wrap_id (rowRings * colSegments * 8))
      by (int_lia).
    rewrite (wrap_id (rowRings - 1))
      by (int_lia).
    rewrite (wrap_id ((rowRings - 1) * colSegments))
      by (int_lia).
    rewrite (wrap_id ((rowRings - 1) * colSegments * 6))
      by (int_lia).
    unfold vector_max_size, Int32.INT_MAX in *.
    rewrite !Z.mod_small by lia.
    destruct (Z.gtb_spec (rowRings * colSegments * 8) 2305843009213693951); [lia|].
    destruct (Z.gtb_spec ((rowRings - 1) * colSegments * 6) 2305843009213693951); [lia|].
    cbv zeta. rewrite Hlen.
    rewrite wrap_id
      by (int_lia).
    reflexivity.
  - exact Hlen.
  - rewrite buildIndices_flat_map by (int_lia).
    unfold indices_valid. apply Forall_forall. intros i Hi.
    apply in_flat_map in Hi. destruct Hi as [r [Hr' Hi]].
    apply in_flat_map in Hi. destruct Hi as [c [Hc' Hi]].
    apply zseq_In in Hr'. apply zseq_In in Hc'.
    assert (Hv : indices_valid (rowRings * colSegments) (quad colSegments r c)).
    { apply quad_valid; int_nia. }
    unfold indices_valid in Hv. rewrite Forall_forall in Hv. now apply Hv.
Qed.

End TopologyFacts.

(** * Facts about binary32 zeros *)

Section Float32Facts.

Import Float32.

Lemma fmul_zero_r x : is_finite x = true -> is_zero (fmul x zero) = true.
Proof. destruct x; intros H; try discriminate H; reflexivity. Qed.

Lemma fmul_zero_l x : is_finite x = true -> is_zero (fmul zero x) = true.
Proof. destruct x; intros H; try discriminate H; reflexivity. Qed.

Lemma fsub_zero x y :
  is_zero x = true -> is_zero y = true -> is_zero (fsub x y) = true.
Proof.
  destruct x as [bx| | |]; intros Hx; try discriminate Hx.
  destruct y as [b| | |]; intros Hy; try discriminate Hy.
  destruct bx, b; reflexivity.
Qed.

Lemma fmul_zero_finite x k :
  is_zero x = true -> is_finite k = true -> is_zero (fmul x k) = true.
Proof.
  destruct x; intros Hx; try discriminate Hx.
  destruct k; intros Hk; try discriminate Hk; reflexivity.
Qed.

(** In binary32 too the y-component of the normal is a zero, as soon as the
    tangent is finite and the factor [inversesqrt(dot(n, n))] is finite,
    that is as soon as the squared length of the cross product is not 0. *)
Lemma sampleNormal_y_zero radius sinTheta cosTheta :
  let tTheta := mkVec3 (fmul (fneg radius) sinTheta) zero (fmul radius cosTheta) in
  let n := cross tTheta (mkVec3 zero one zero) in
  is_finite (vx tTheta) = true -> is_finite (vz tTheta) = true ->
  is_finite (inversesqrt (dot n n)) = true ->
  is_zero (vy (sampleNormal radius sinTheta cosTheta)) = true.
Proof.
  intros tTheta n Hx Hz Hk.
  unfold sampleNormal. fold tTheta. fold n.
  unfold normalize. cbv zeta. cbn [vy].
  apply fmul_zero_finite; [|exact Hk].
  subst n. unfold cross. cbn [vx vy vz].
  apply fsub_zero.
  - now apply fmul_zero_r.
  - now apply fmul_zero_l.
Qed.

(** On the last of two rings the division 1.0f / 1.0f is exact: [vParam] is
    1 in binary32 as it is over the reals. *)
Lemma vParam_last_ring_binary32 : vParam 2 1 = one.
Proof. vm_compute. reflexivity. Qed.

(** With a single ring [vParam] is 0.0f / 0.0f, a NaN; nothing is thrown. *)
Lemma vParam_single_ring_binary32 : vParam 1 0 = nan.
Proof. vm_compute. reflexivity. Qed.

(** Beyond 2^24 segments the conversion of [colSegments] rounds: 2^24 + 1
    becomes 2^24, and the last segment gets [uParam] = 1. *)
Lemma uParam_rounds_to_one_binary32 :
  of_int (exact_int_bound + 1) = of_int exact_int_bound /\
  uParam (exact_int_bound + 1) exact_int_bound = one.
Proof. split; vm_compute; reflexivity. Qed.

End Float32Facts.

(** * Facts about binary32 rounding: the quotient of two converted integers

    [SpecFloat] rounds through [binary_round_aux]: the mantissa is shifted
    right until it has [prec] = 24 bits, the bits shifted out decide the
    rounding to nearest even, and a mantissa that rounding carries to 2^24 is
    shifted once more.  The lemmas below follow that path for the conversion
    of an [int] of magnitude up to 2^24 and for the division of two such
    conversions. *)

Section Binary32Digits.

Import Float32.

(** [digits2_pos p] is the number of bits of [p]. *)
Lemma digits2_pos_bounds p :
  2 ^ (Zpos (digits2_pos p) - 1) <= Zpos p < 2 ^ Zpos (digits2_pos p).
Proof.
  induction p as [p IH|p IH|]; cbn [digits2_pos].
  - rewrite Pos2Z.inj_succ.
    replace (Z.succ (Zpos (digits2_pos p)) - 1) with (Z.succ (Zpos (digits2_pos p) - 1)) by lia.
    rewrite !Z.pow_succ_r by lia. lia.
  - rewrite Pos2Z.inj_succ.
    replace (Z.succ (Zpos (digits2_pos p)) - 1) with (Z.succ (Zpos (digits2_pos p) - 1)) by lia.
    rewrite !Z.pow_succ_r by lia. lia.
  - simpl. lia.
Qed.

(** The number of bits is fixed by the two powers of 2 around [p]. *)
Lemma digits2_pos_unique p d :
  2 ^ (d - 1) <= Zpos p < 2 ^ d -> 0 < d -> Zpos (digits2_pos p) = d.
Proof.
  intros [Hlo Hhi] Hd.
  pose proof (digits2_pos_bounds p) as [Hlo' Hhi'].
  destruct (Z.lt_trichotomy (Zpos (digits2_pos p)) d) as [Hlt|[Heq|Hgt]]; [|exact Heq|].
  - assert (2 ^ Zpos (digits2_pos p) <= 2 ^ (d - 1)) by (apply Z.pow_le_mono_r; lia). lia.
  - assert (2 ^ d <= 2 ^ (Zpos (digits2_pos p) - 1)) by (apply Z.pow_le_mono_r; lia). lia.
Qed.

Lemma digits_24 p : 8388608 <= Zpos p < 16777216 -> Zpos (digits2_pos p) = 24.
Proof. intros H. apply digits2_pos_unique; [exact H|lia]. Qed.

Lemma digits_25 p : 16777216 <= Zpos p < 33554432 -> Zpos (digits2_pos p) = 25.
Proof. intros H. apply digits2_pos_unique; [exact H|lia]. Qed.

End Binary32Digits.

Section Binary32Rounding.

Import Float32.

(** Away from the subnormal range the exponent of a number of magnitude
    2^x is [x - 24]. *)
Lemma fexp_normal x : -125 <= x -> fexp prec emax x = x - 24.
Proof. intros H. unfold fexp, emin, prec, emax. lia. Qed.

Lemma shr_record_of_loc_m m l : shr_m (shr_record_of_loc m l) = m.
Proof. destruct l as [|[| |]]; reflexivity. Qed.

Lemma loc_of_shr_record_of_loc m l : loc_of_shr_record (shr_record_of_loc m l) = l.
Proof. destruct l as [|[| |]]; reflexivity. Qed.

(** A mantissa of 24 bits stays as it is. *)
Lemma shr_fexp_24 p e l :
  8388608 <= Zpos p < 16777216 -> -149 <= e ->
  shr_fexp prec emax (Zpos p) e l = (shr_record_of_loc (Zpos p) l, e).
Proof.
  intros Hp He. unfold shr_fexp. cbn [Zdigits2]. rewrite (digits_24 p Hp).
  rewrite fexp_normal by lia.
  replace (24 + e - 24 - e) with 0 by lia. reflexivity.
Qed.

(** A mantissa of 25 bits loses its last bit. *)
Lemma shr_fexp_25 p e l :
  16777216 <= Zpos p < 33554432 -> -149 <= e ->
  shr_fexp prec emax (Zpos p) e l = (shr_1 (shr_record_of_loc (Zpos p) l), e + 1).
Proof.
  intros Hp He. unfold shr_fexp. cbn [Zdigits2]. rewrite (digits_25 p Hp).
  rewrite fexp_normal by lia.
  replace (25 + e - 24 - e) with 1 by lia. reflexivity.
Qed.

(** Rounding keeps the mantissa or adds 1 to it. *)
Lemma round_nearest_even_cases m l :
  round_nearest_even m l = m \/ round_nearest_even m l = m + 1.
Proof.
  destruct l as [|[| |]]; cbn [round_nearest_even]; auto.
  destruct (Z.even m); auto.
Qed.

(** [binary_round_aux] on a quotient of 24 bits: the rounded mantissa is
    kept, unless it reaches 2^24, which becomes 2^23 with the next
    exponent. *)
Lemma binary_round_aux_24 p e l :
  8388608 <= Zpos p < 16777216 -> -149 <= e <= 103 ->
  binary_round_aux prec emax false (Zpos p) e l =
  if round_nearest_even (Zpos p) l <? 16777216
  then S754_finite false (Z.to_pos (round_nearest_even (Zpos p) l)) e
  else S754_finite false 8388608 (e + 1).
Proof.
  intros Hp He. unfold binary_round_aux.
  rewrite shr_fexp_24 by lia.
  rewrite shr_record_of_loc_m, loc_of_shr_record_of_loc.
  set (q := round_nearest_even (Zpos p) l).
  assert (Hq : q = Zpos p \/ q = Zpos p + 1) by apply round_nearest_even_cases.
  destruct (Z.ltb_spec q 16777216) as [Hlt|Hge].
  - destruct q as [|q|q]; try lia.
    rewrite shr_fexp_24 by lia. cbn [shr_record_of_loc shr_m Z.to_pos].
    destruct (Z.leb_spec e (emax - prec)) as [_|H]; [reflexivity|].
    unfold emax, prec in H. lia.
  - replace q with 16777216 by lia.
    rewrite shr_fexp_25 by lia.
    cbn [shr_record_of_loc shr_1 shr_m orb].
    destruct (Z.leb_spec (e + 1) (emax - prec)) as [_|H]; [reflexivity|].
    unfold emax, prec in H. lia.
Qed.

(** On a quotient of 25 bits the last bit is dropped first; below
    2^25 - 1 the rounded mantissa stays below 2^24. *)
Lemma binary_round_aux_25 p e l :
  16777216 <= Zpos p <= 33554430 -> -149 <= e <= 103 ->
  exists m, 8388608 <= Zpos m < 16777216 /\
    binary_round_aux prec emax false (Zpos p) e l = S754_finite false m (e + 1).
Proof.
  intros Hp He. unfold binary_round_aux.
  rewrite shr_fexp_25 by lia.
  assert (Hshr : exists h b s,
            shr_1 (shr_record_of_loc (Zpos p) l) = Build_shr_record (Zpos h) b s /\
            8388608 <= Zpos h < 16777216 /\
            (Zpos h = 16777215 -> b = false)).
  { destruct p as [h|h|]; [| |lia].
    - exists h, true, (match l with loc_Exact => false | _ => true end).
      split; [destruct l as [|[| |]]; reflexivity|]. lia.
    - exists h, false, (match l with loc_Exact => false | _ => true end).
      split; [destruct l as [|[| |]]; reflexivity|]. lia. }
  destruct Hshr as [h [b [s [-> [Hh Hb]]]]].
  cbn [shr_m].
  set (q := round_nearest_even (Zpos h) (loc_of_shr_record (Build_shr_record (Zpos h) b s))).
  assert (Hq : 8388608 <= q < 16777216).
  { subst q. destruct b, s; cbn [loc_of_shr_record round_nearest_even];
      try lia.
    destruct (Z.even (Zpos h)); lia. }
  destruct q as [|q|q]; try lia.
  exists q. split; [exact Hq|].
  rewrite shr_fexp_24 by lia. cbn [shr_record_of_loc shr_m].
  destruct (Z.leb_spec (e + 1) (emax - prec)) as [_|H]; [reflexivity|].
  unfold emax, prec in H. lia.
Qed.

(** An exact even quotient of 25 bits is halved. *)
Lemma binary_round_aux_25_exact h e :
  8388608 <= Zpos h < 16777216 -> -149 <= e <= 103 ->
  binary_round_aux prec emax false (Zpos (xO h)) e loc_Exact =
  S754_finite false h (e + 1).
Proof.
  intros Hh He. unfold binary_round_aux.
  rewrite shr_fexp_25 by lia.
  cbn [shr_record_of_loc shr_1 shr_m orb loc_of_shr_record round_nearest_even].
  rewrite shr_fexp_24 by lia. cbn [shr_record_of_loc shr_m].
  destruct (Z.leb_spec (e + 1) (emax - prec)) as [_|H]; [reflexivity|].
  unfold emax, prec in H. lia.
Qed.

End Binary32Rounding.

Section Binary32Conversion.

Import Float32.

(** The left shift of [shl_align]. *)
Lemma iter_xO_pow p k : Zpos (Pos.iter xO p k) = Zpos p * 2 ^ Zpos k.
Proof.
  change (Pos.iter xO p k) with (shift_pos k p).
  rewrite shift_pos_correct, Z.pow_pos_fold. ring.
Qed.

(** [(float)c] for 1 <= c <= 2^24: a mantissa of 24 bits and the exponent
    that keeps the value, [m * 2^e = c]. *)
Lemma of_int_normal c :
  1 <= c <= 16777216 ->
  exists m e,
    of_int c = S754_finite false m e /\
    8388608 <= Zpos m < 16777216 /\ -23 <= e <= 1 /\
    Zpos m * 2 ^ (e + 23) = c * 8388608.
Proof.
  intros Hc.
  destruct (Z.eq_dec c 16777216) as [->|Hne].
  { exists 8388608%positive, 1. split; [reflexivity|]. lia. }
  destruct c as [|p|p]; try lia.
  unfold of_int, binary_normalize, binary_round.
  pose proof (digits2_pos_bounds p) as [Hlo Hhi].
  set (d := Zpos (digits2_pos p)) in *.
  assert (Hd : 1 <= d <= 24).
  { split; [subst d; lia|].
    destruct (Z_le_gt_dec d 24) as [H|H]; [exact H|].
    assert (2 ^ 24 <= 2 ^ (d - 1)) by (apply Z.pow_le_mono_r; lia).
    change (2 ^ 24) with 16777216 in *. lia. }
  rewrite fexp_normal by lia.
  unfold shl_align.
  destruct (Z.eq_dec d 24) as [Hd24|Hd24].
  - replace (d + 0 - 24 - 0) with 0 by lia.
    rewrite Hd24 in Hlo, Hhi. change (2 ^ (24 - 1)) with 8388608 in Hlo.
    change (2 ^ 24) with 16777216 in Hhi.
    exists p, 0. rewrite binary_round_aux_24 by lia.
    cbn [round_nearest_even]. destruct (Z.ltb_spec (Zpos p) 16777216); [|lia].
    split; [reflexivity|]. lia.
  - assert (Hk : exists k, d + 0 - 24 - 0 = Zneg k /\ Zpos k = 24 - d).
    { destruct (d + 0 - 24 - 0) as [|k|k] eqn:E; try lia. exists k. lia. }
    destruct Hk as [k [-> Hk]].
    assert (Hm : 8388608 <= Zpos (Pos.iter xO p k) < 16777216).
    { rewrite iter_xO_pow, Hk.
      assert (E1 : 2 ^ (d - 1) * 2 ^ (24 - d) = 8388608)
        by (rewrite <- Z.pow_add_r by lia; replace (d - 1 + (24 - d)) with 23 by lia;
            reflexivity).
      assert (E2 : 2 ^ d * 2 ^ (24 - d) = 16777216)
        by (rewrite <- Z.pow_add_r by lia; replace (d + (24 - d)) with 24 by lia;
            reflexivity).
      assert (0 < 2 ^ (24 - d)) by (apply Z.pow_pos_nonneg; lia).
      nia. }
    exists (Pos.iter xO p k), (d + 0 - 24).
    rewrite binary_round_aux_24 by lia.
    cbn [round_nearest_even].
    destruct (Z.ltb_spec (Zpos (Pos.iter xO p k)) 16777216); [|lia].
    split; [reflexivity|]. split; [exact Hm|]. split; [lia|].
    rewrite iter_xO_pow, Hk.
    replace (d + 0 - 24 + 23) with (d - 1) by lia.
    rewrite <- Z.mul_assoc, <- Z.pow_add_r by lia.
    replace (24 - d + (d - 1)) with 23 by lia. reflexivity.
Qed.

End Binary32Conversion.

Section Binary32Quotient.

Import Float32.

(** 1.0f is 2^23 * 2^-23. *)
Lemma one_eq : one = S754_finite false 8388608 (-23).
Proof. reflexivity. Qed.

(** The core of the division of two mantissas of 24 bits: the dividend is
    shifted by 24 bits, so that the quotient has 24 or 25 bits. *)
Lemma SFdiv_core_binary_24 m1 e1 m2 e2 :
  8388608 <= Zpos m1 < 16777216 -> 8388608 <= Zpos m2 < 16777216 ->
  -23 <= e1 <= 1 -> -23 <= e2 <= 1 ->
  SFdiv_core_binary prec emax (Zpos m1) e1 (Zpos m2) e2 =
  ((Zpos m1 * 16777216) / Zpos m2, e1 - e2 - 24,
   new_location (Zpos m2) ((Zpos m1 * 16777216) mod Zpos m2)).
Proof.
  intros H1 H2 He1 He2. unfold SFdiv_core_binary. cbn [Zdigits2].
  rewrite (digits_24 m1 H1), (digits_24 m2 H2).
  rewrite fexp_normal by lia.
  replace (Z.min (24 + e1 - (24 + e2) - 24) (e1 - e2)) with (e1 - e2 - 24) by lia.
  replace (e1 - e2 - (e1 - e2 - 24)) with 24 by lia.
  rewrite Z.shiftl_mul_pow2 by lia. change (2 ^ 24) with 16777216.
  unfold Z.div, Z.modulo.
  destruct (Z.div_eucl (Zpos m1 * 16777216) (Zpos m2)) as [q r]. reflexivity.
Qed.

(** A quotient below 1: the result is a finite positive float with an
    exponent below that of 1.0. *)
Lemma fdiv_below_one m1 e1 m2 e2 :
  8388608 <= Zpos m1 < 16777216 -> 8388608 <= Zpos m2 < 16777216 ->
  -23 <= e1 <= 1 -> -23 <= e2 <= 1 ->
  e1 < e2 \/ (e1 = e2 /\ Zpos m1 < Zpos m2) ->
  exists m e,
    fdiv (S754_finite false m1 e1) (S754_finite false m2 e2) = S754_finite false m e /\
    e <= -24.
Proof.
  intros H1 H2 He1 He2 Hlt. unfold fdiv, SFdiv.
  rewrite SFdiv_core_binary_24 by assumption. cbn [xorb].
  set (q := Zpos m1 * 16777216 / Zpos m2).
  set (l := new_location (Zpos m2) ((Zpos m1 * 16777216) mod Zpos m2)).
  pose proof (Z.div_mod (Zpos m1 * 16777216) (Zpos m2) ltac:(lia)) as Hdm.
  pose proof (Z.mod_pos_bound (Zpos m1 * 16777216) (Zpos m2) ltac:(lia)) as Hr.
  fold q in Hdm.
  set (r := (Zpos m1 * 16777216) mod Zpos m2) in *.
  assert (Hq : 8388608 <= q <= 33554430) by nia.
  destruct (Z_lt_ge_dec q 16777216) as [Hq24|Hq25].
  - destruct q as [|pq|pq] eqn:Eq; try lia.
    rewrite binary_round_aux_24 by lia.
    destruct (round_nearest_even_cases (Zpos pq) l) as [Hc|Hc]; rewrite Hc.
    + destruct (Z.ltb_spec (Zpos pq) 16777216); [|lia].
      eexists _, _. split; [reflexivity|]. lia.
    + destruct (Z.ltb_spec (Zpos pq + 1) 16777216) as [Hno|Hcarry].
      * eexists _, _. split; [reflexivity|]. lia.
      * eexists _, _. split; [reflexivity|].
        destruct Hlt as [Hlt|[He Hm]]; [lia|]. exfalso. nia.
  - destruct q as [|pq|pq] eqn:Eq; try lia.
    destruct (binary_round_aux_25 pq (e1 - e2 - 24) l) as [m [Hm ->]]; try lia.
    exists m, (e1 - e2 - 24 + 1). split; [reflexivity|].
    destruct Hlt as [Hlt|[He Hm']]; [lia|]. exfalso. nia.
Qed.

(** A float divided by itself. *)
Lemma fdiv_same m e :
  8388608 <= Zpos m < 16777216 -> -23 <= e <= 1 ->
  fdiv (S754_finite false m e) (S754_finite false m e) = one.
Proof.
  intros Hm He. unfold fdiv, SFdiv.
  rewrite SFdiv_core_binary_24 by assumption. cbn [xorb].
  rewrite (Z.mul_comm (Zpos m)), Z.div_mul, Z.mod_mul by lia.
  replace (new_location (Zpos m) 0) with loc_Exact
    by (unfold new_location, new_location_even, new_location_odd;
        destruct (Z.even (Zpos m)); reflexivity).
  replace (e - e - 24) with (-24) by lia.
  reflexivity.
Qed.

(** A positive float with an exponent below -23 compares below 1.0f. *)
Lemma below_one_ltb m e : e <= -24 -> SFltb (S754_finite false m e) one = true.
Proof.
  intros He. rewrite one_eq. unfold SFltb, SFcompare.
  destruct (Z.compare_spec e (-23)); [lia|reflexivity|lia].
Qed.

End Binary32Quotient.

Section Binary32IntQuotient.

Import Float32.

(** The order of two converted integers, read on exponent and mantissa. *)
Lemma normal_order m1 e1 m2 e2 c n :
  8388608 <= Zpos m1 < 16777216 -> 8388608 <= Zpos m2 < 16777216 ->
  -23 <= e1 <= 1 -> -23 <= e2 <= 1 ->
  Zpos m1 * 2 ^ (e1 + 23) = c * 8388608 ->
  Zpos m2 * 2 ^ (e2 + 23) = n * 8388608 ->
  c < n ->
  e1 < e2 \/ (e1 = e2 /\ Zpos m1 < Zpos m2).
Proof.
  intros H1 H2 He1 He2 Hc Hn Hlt.
  assert (Hp2 : 0 < 2 ^ (e2 + 23)) by (apply Z.pow_pos_nonneg; lia).
  destruct (Z.lt_trichotomy e1 e2) as [H|[H|H]]; [now left| |].
  - right. split; [exact H|]. subst e2. nia.
  - exfalso.
    assert (E : 2 ^ (e1 + 23) = 2 ^ (e2 + 23) * 2 ^ (e1 - e2)).
    { rewrite <- Z.pow_add_r by lia. f_equal. lia. }
    assert (2 ^ 1 <= 2 ^ (e1 - e2)) by (apply Z.pow_le_mono_r; lia).
    change (2 ^ 1) with 2 in *. nia.
Qed.

(** [(float)c / n] for 0 <= c < n <= 2^24 lies in [0, 1). *)
Lemma int_quotient_below_one c n :
  0 <= c < n -> n <= 16777216 ->
  SFleb zero (fdiv (of_int c) (of_int n)) = true /\
  SFltb (fdiv (of_int c) (of_int n)) one = true.
Proof.
  intros Hc Hn.
  destruct (of_int_normal n) as [m2 [e2 [En [H2 [He2 Hv2]]]]]; [lia|].
  rewrite En.
  destruct (Z.eq_dec c 0) as [->|Hc0].
  - split; reflexivity.
  - destruct (of_int_normal c) as [m1 [e1 [Ec [H1 [He1 Hv1]]]]]; [lia|].
    rewrite Ec.
    destruct (fdiv_below_one m1 e1 m2 e2) as [m [e [-> He]]]; try assumption.
    + apply (normal_order m1 e1 m2 e2 c n); assumption || lia.
    + split; [reflexivity|]. now apply below_one_ltb.
Qed.

(** [(float)n / n] is 1.0 for 1 <= n <= 2^24. *)
Lemma int_quotient_same n :
  1 <= n <= 16777216 -> fdiv (of_int n) (of_int n) = one.
Proof.
  intros Hn.
  destruct (of_int_normal n) as [m [e [-> [Hm [He _]]]]]; [lia|].
  now apply fdiv_same.
Qed.

End Binary32IntQuotient.

Section Binary32Texcoords.

Import Loops Float32.

Lemma makeTexcoords_flat_map rowRings colSegments :
  rowRings <= Int32.INT_MAX -> colSegments <= Int32.INT_MAX ->
  makeTexcoords rowRings colSegments =
  flat_map (fun r => map (fun c => (uParam colSegments c, vParam rowRings r))
                         (zseq 0 (Z.to_nat colSegments)))
           (zseq 0 (Z.to_nat rowRings)).
Proof.
  intros Hr Hc. unfold makeTexcoords.
  rewrite (for_upto_append _
             (fun r => map (fun c => (uParam colSegments c, vParam rowRings r))
                           (zseq 0 (Z.to_nat colSegments)))).
  - reflexivity.
  - exact Hr.
  - intros r s. cbv zeta.
    rewrite (for_upto_append _ (fun c => [(uParam colSegments c, vParam rowRings r)])).
    + now rewrite flat_map_singleton.
    + exact Hc.
    + reflexivity.
Qed.

(** A pair of the buffer is the texcoord of a ring and a segment of the
    grid, and conversely. *)
Lemma makeTexcoords_In rowRings colSegments uv :
  rowRings <= Int32.INT_MAX -> colSegments <= Int32.INT_MAX ->
  In uv (makeTexcoords rowRings colSegments) <->
  exists r c, 0 <= r < rowRings /\ 0 <= c < colSegments /\
              uv = (uParam colSegments c, vParam rowRings r).
Proof.
  intros Hr Hc. rewrite makeTexcoords_flat_map by assumption.
  rewrite in_flat_map. split.
  - intros [r [Hin Hv]]. apply in_map_iff in Hv. destruct Hv as [c [Hv Hcin]].
    apply zseq_In in Hin. apply zseq_In in Hcin.
    exists r, c. repeat split; try lia. now symmetry.
  - intros [r [c [Hrr [Hcc Hv]]]]. exists r. split.
    + apply zseq_In. lia.
    + apply in_map_iff. exists c. split; [now symmetry|]. apply zseq_In. lia.
Qed.

(** [uParam] in binary32: at least 0 and below 1, up to 2^24 segments. *)
Lemma uParam_range_binary32 colSegments c :
  0 <= c < colSegments -> colSegments <= exact_int_bound ->
  SFleb zero (uParam colSegments c) = true /\
  SFltb (uParam colSegments c) one = true.
Proof.
  unfold exact_int_bound, uParam. intros Hc Hcs.
  now apply int_quotient_below_one.
Qed.

(** [vParam] in binary32: 1 on the last ring and in [0, 1) on the others, up
    to 2^24 + 1 rings. *)
Lemma vParam_range_binary32 rowRings r :
  2 <= rowRings -> rowRings - 1 <= exact_int_bound -> 0 <= r < rowRings ->
  SFleb zero (vParam rowRings r) = true /\
  SFleb (vParam rowRings r) one = true /\
  (SFltb (vParam rowRings r) one = true <-> r < rowRings - 1) /\
  (vParam rowRings r = one <-> r = rowRings - 1).
Proof.
  unfold exact_int_bound, vParam. intros Hrr Hb Hr.
  assert (Hsub : Int32.sub rowRings 1 = rowRings - 1)
    by (unfold Int32.sub; apply wrap_id; int_lia).
  rewrite Hsub.
  destruct (Z.eq_dec r (rowRings - 1)) as [->|Hne].
  - rewrite int_quotient_same by lia.
    split; [reflexivity|]. split; [reflexivity|]. split.
    + split; [intros H; discriminate H|lia].
    + split; reflexivity.
  - destruct (int_quotient_below_one r (rowRings - 1)) as [H0 H1]; [lia|lia|].
    split; [exact H0|]. split; [|split].
    + unfold SFltb in H1. unfold SFleb.
      destruct (SFcompare (fdiv (of_int r) (of_int (rowRings - 1))) one)
        as [[| |]|]; try discriminate H1. reflexivity.
    + split; [lia|intros _; exact H1].
    + split; [|lia]. intros E. rewrite E in H1. discriminate H1.
Qed.

End Binary32Texcoords.

(** * Facts about the sampler and the animator over the reals *)

Section IdealFacts.

Import Loops Ideal.

Local Open Scope R_scope.

Lemma sin_cos_sq th : sin th * sin th + cos th * cos th = 1.
Proof. pose proof (sin2_cos2 th) as H. unfold Rsqr in H. exact H. Qed.

(** *** The normal *)

Lemma cross_tTheta rad th :
  cross (mkVec3 (- rad * sin th) 0.0 (rad * cos th)) (mkVec3 0.0 1.0 0.0)
  = mkVec3 (- (rad * cos th)) 0 (- (rad * sin th)).
Proof. unfold cross; simpl. f_equal; lra. Qed.

Lemma dot_cross_tTheta rad th :
  dot (mkVec3 (- (rad * cos th)) 0 (- (rad * sin th)))
      (mkVec3 (- (rad * cos th)) 0 (- (rad * sin th))) = rad * rad.
Proof.
  unfold dot; simpl. pose proof (sin_cos_sq th) as H. nra.
Qed.

(** The cross product has length [|rad|]; [normalize] divides by it. *)
Lemma normalAt_eq rad th :
  normalAt rad th =
  mkVec3 (- (rad * cos th) * (1 / Rabs rad)) 0 (- (rad * sin th) * (1 / Rabs rad)).
Proof.
  unfold normalAt. cbv zeta. rewrite cross_tTheta.
  unfold normalize, inversesqrt. rewrite dot_cross_tTheta.
  change (rad * rad) with (Rsqr rad). rewrite sqrt_Rsqr_abs.
  unfold scale; simpl. f_equal. lra.
Qed.

Lemma normalAt_pos rad th :
  0 < rad -> normalAt rad th = mkVec3 (- cos th) 0 (- sin th).
Proof.
  intros Hpos. rewrite normalAt_eq. rewrite Rabs_right by lra.
  f_equal; field; lra.
Qed.

Lemma normalAt_unit rad th :
  rad <> 0 -> dot (normalAt rad th) (normalAt rad th) = 1.
Proof.
  intros Hne. rewrite normalAt_eq. unfold dot; simpl.
  pose proof (sin_cos_sq th) as Hsc.
  assert (Habs : Rabs rad <> 0) by (apply Rabs_no_R0; exact Hne).
  assert (Hsq : Rabs rad * Rabs rad = rad * rad).
  { destruct (Rcase_abs rad) as [Hn|Hp].
    - rewrite Rabs_left by lra. ring.
    - rewrite Rabs_right by lra. ring. }
  assert (Hinv : rad * (1 / Rabs rad) * (rad * (1 / Rabs rad)) = 1).
  { replace (rad * (1 / Rabs rad) * (rad * (1 / Rabs rad)))
      with ((rad * rad) / (Rabs rad * Rabs rad)) by (field; exact Habs).
    rewrite Hsq. field. exact Hne. }
  nra.
Qed.

(** *** The radius is never zero *)

Lemma powf_pos x y : x <> 0 -> 0 < powf x y.
Proof.
  intros Hx. unfold powf. destruct (Req_dec_T x 0) as [H0|_]; [contradiction|].
  unfold Rpower. apply exp_pos.
Qed.

Lemma sign_of_sq x : sign_of x * sign_of x = 1.
Proof. unfold sign_of. destruct (Rle_dec 0 x); lra. Qed.

Lemma r0_pos th : 0 < r0 th.
Proof.
  unfold r0. cbv zeta. apply sqrt_lt_R0.
  set (p := powf (Rabs (cos th)) (2 / 2.5)).
  set (q := powf (Rabs (sin th)) (2 / 2.5)).
  pose proof (sign_of_sq (cos th)) as Hsc.
  pose proof (sign_of_sq (sin th)) as Hss.
  replace (p * 1.0 * sign_of (cos th) * (p * 1.0 * sign_of (cos th)))
    with (p * p * (sign_of (cos th) * sign_of (cos th))) by nra.
  replace (q * 0.5 * sign_of (sin th) * (q * 0.5 * sign_of (sin th)))
    with (0.25 * (q * q) * (sign_of (sin th) * sign_of (sin th))) by nra.
  rewrite Hsc, Hss.
  destruct (Req_dec_T (cos th) 0) as [Hc|Hc].
  - assert (Hs : sin th <> 0).
    { intros Hs. pose proof (sin_cos_sq th) as H. rewrite Hc, Hs in H. lra. }
    assert (Hq : 0 < q) by (apply powf_pos, Rabs_no_R0; exact Hs).
    assert (Hp : 0 <= p * p) by nra.
    nra.
  - assert (Hp : 0 < p) by (apply powf_pos, Rabs_no_R0; exact Hc).
    assert (Hq : 0 <= q * q) by nra.
    nra.
Qed.

Lemma wave_bound g_time u v : -0.25 <= wave g_time u v <= 0.25.
Proof.
  unfold wave.
  pose proof (SIN_bound (6.0 * u * two_pi - 4.0 * v * two_pi + g_time * 1.5)) as H.
  lra.
Qed.

Lemma radius_pos rowRings colSegments g_time r c :
  0 < radius rowRings colSegments g_time r c.
Proof.
  unfold radius.
  pose proof (r0_pos (theta colSegments c)) as H0.
  pose proof (wave_bound g_time (uParam colSegments c) (vParam rowRings r)) as Hw.
  nra.
Qed.

(** *** The vertex buffer *)

Lemma makeVertices_flat_map rowRings colSegments g_time :
  (rowRings <= Int32.INT_MAX)%Z -> (colSegments <= Int32.INT_MAX)%Z ->
  makeVertices rowRings colSegments g_time =
  flat_map (fun r => map (sampleVertex rowRings colSegments g_time r)
                         (zseq 0 (Z.to_nat colSegments)))
           (zseq 0 (Z.to_nat rowRings)).
Proof.
  intros Hr Hc. unfold makeVertices.
  rewrite (for_upto_append _
             (fun r => map (sampleVertex rowRings colSegments g_time r)
                           (zseq 0 (Z.to_nat colSegments)))).
  - reflexivity.
  - exact Hr.
  - intros r s.
    rewrite (for_upto_append _ (fun c => [sampleVertex rowRings colSegments g_time r c])).
    + now rewrite flat_map_singleton.
    + exact Hc.
    + reflexivity.
Qed.

(** A vertex of the buffer is the sample of a ring and a segment of the
    grid, and conversely. *)
Lemma makeVertices_In rowRings colSegments g_time vtx :
  (rowRings <= Int32.INT_MAX)%Z -> (colSegments <= Int32.INT_MAX)%Z ->
  In vtx (makeVertices rowRings colSegments g_time) <->
  exists r c, (0 <= r < rowRings)%Z /\ (0 <= c < colSegments)%Z /\
              vtx = sampleVertex rowRings colSegments g_time r c.
Proof.
  intros Hr Hc. rewrite makeVertices_flat_map by assumption.
  rewrite in_flat_map. split.
  - intros [r [Hin Hv]]. apply in_map_iff in Hv. destruct Hv as [c [Hv Hcin]].
    apply zseq_In in Hin. apply zseq_In in Hcin.
    exists r, c. repeat split; try lia. now symmetry.
  - intros [r [c [Hrr [Hcc Hv]]]]. exists r. split.
    + apply zseq_In. lia.
    + apply in_map_iff. exists c. split; [now symmetry|]. apply zseq_In. lia.
Qed.

Lemma makeVertices_length rowRings colSegments g_time :
  (0 <= rowRings <= Int32.INT_MAX)%Z -> (0 <= colSegments <= Int32.INT_MAX)%Z ->
  Z.of_nat (List.length (makeVertices rowRings colSegments g_time)) =
  (rowRings * colSegments)%Z.
Proof.
  intros Hr Hc. rewrite makeVertices_flat_map by lia.
  rewrite (flat_map_length_const _ (Z.to_nat colSegments)).
  - rewrite zseq_length, Nat2Z.inj_mul, !Z2Nat.id by lia. reflexivity.
  - intros r _. now rewrite length_map, zseq_length.
Qed.

(** *** Texture coordinates *)

Lemma uParam_range colSegments c :
  (0 <= c < colSegments)%Z -> 0 <= uParam colSegments c < 1.
Proof.
  intros Hc. unfold uParam.
  assert (Hcs : 0 < IZR colSegments) by (apply IZR_lt; lia).
  assert (Hc0 : 0 <= IZR c) by (apply IZR_le; lia).
  assert (Hlt : IZR c < IZR colSegments) by (apply IZR_lt; lia).
  split.
  - apply Rmult_le_pos; [exact Hc0|]. left. now apply Rinv_0_lt_compat.
  - apply (Rmult_lt_reg_r (IZR colSegments)); [exact Hcs|].
    unfold Rdiv. rewrite Rmult_assoc, Rinv_l by lra. lra.
Qed.

Lemma vParam_eq rowRings r :
  (2 <= rowRings <= Int32.INT_MAX)%Z ->
  vParam rowRings r = IZR r / IZR (rowRings - 1).
Proof.
  intros Hrr. unfold vParam.
  now rewrite wrap_id_sub1 by (int_lia).
Qed.

Lemma vParam_range rowRings r :
  (2 <= rowRings <= Int32.INT_MAX)%Z -> (0 <= r < rowRings)%Z ->
  0 <= vParam rowRings r <= 1.
Proof.
  intros Hrr Hr. rewrite vParam_eq by exact Hrr.
  assert (Hd : 0 < IZR (rowRings - 1)) by (apply IZR_lt; lia).
  assert (Hr0 : 0 <= IZR r) by (apply IZR_le; lia).
  assert (Hle : IZR r <= IZR (rowRings - 1)) by (apply IZR_le; lia).
  split.
  - apply Rmult_le_pos; [exact Hr0|]. left. now apply Rinv_0_lt_compat.
  - apply (Rmult_le_reg_r (IZR (rowRings - 1))); [exact Hd|].
    unfold Rdiv. rewrite Rmult_assoc, Rinv_l by lra. lra.
Qed.

(** [vParam] reaches 1 on the last ring and only there. *)
Lemma vParam_one_iff rowRings r :
  (2 <= rowRings <= Int32.INT_MAX)%Z ->
  vParam rowRings r = 1 <-> r = (rowRings - 1)%Z.
Proof.
  intros Hrr. rewrite vParam_eq by exact Hrr.
  assert (Hd : 0 < IZR (rowRings - 1)) by (apply IZR_lt; lia).
  split.
  - intros H1. apply eq_IZR.
    apply (Rmult_eq_reg_r (/ IZR (rowRings - 1))).
    + fold (IZR r / IZR (rowRings - 1)). rewrite H1. field. lra.
    + apply Rinv_neq_0_compat. lra.
  - intros ->. field. lra.
Qed.

(** *** The light array *)

Lemma animateLights_four g_time p0 p1 p2 p3 :
  animateLights g_time [p0; p1; p2; p3] =
  map (fun i => mkVec3 (1.8 * sin (orbitAngle g_time i))
                       (1.0 + 0.4 * sin (g_time * 1.3 + IZR i))
                       (1.8 * cos (orbitAngle g_time i)))
      [0%Z; 1%Z; 2%Z; 3%Z].
Proof.
  unfold animateLights.
  rewrite for_upto_fold by (unfold Int32.INT_MAX; lia).
  change (zseq 0 (Z.to_nat 4)) with [0%Z; 1%Z; 2%Z; 3%Z].
  reflexivity.
Qed.

Lemma length_four {A : Type} (l : list A) :
  List.length l = 4%nat -> exists a b c d, l = [a; b; c; d].
Proof.
  destruct l as [|a [|b [|c [|d [|e l]]]]]; simpl; intros H; try discriminate H.
  now exists a, b, c, d.
Qed.

(** After the loop every entry of the array holds the position computed
    from its own index; the three stores of a later iteration leave the
    earlier entries alone. *)
Lemma light_animated g_time lights i :
  List.length lights = 4%nat -> (0 <= i < 4)%Z ->
  light (animateLights g_time lights) i =
  mkVec3 (1.8 * sin (orbitAngle g_time i))
         (1.0 + 0.4 * sin (g_time * 1.3 + IZR i))
         (1.8 * cos (orbitAngle g_time i)).
Proof.
  intros Hlen Hi.
  destruct (length_four lights Hlen) as [a [b [c [d ->]]]].
  rewrite animateLights_four.
  assert (Hcases : i = 0%Z \/ i = 1%Z \/ i = 2%Z \/ i = 3%Z) by lia.
  destruct Hcases as [-> | [-> | [-> | ->]]]; reflexivity.
Qed.

End IdealFacts.

(** * The index buffer: count, range, degenerate grids and the seam *)

Section TopologyClaims.

Import Loops Topology.

Example makeSculpture_4_4 :
  exists idx, makeSculpture 4 4 = Returned (mkMesh idx 72) /\ length idx = 72%nat.
Proof. eexists. split; vm_compute; reflexivity. Qed.

Example quad_0_3_of_4 : quad 4 0 3 = [3; 7; 0; 0; 7; 4].
Proof. reflexivity. Qed.

(** C1 (amended): for every ringCount >= 2 and segmentCount >= 3 such that
    ringCount*segmentCount*8, the first capacity computed by makeSculpture,
    fits in a 32-bit int, makeSculpture returns a mesh with exactly
    (ringCount-1)*segmentCount*6 indices (also the value of indexCount), and
    every index is at least 0 and strictly less than
    ringCount*segmentCount. *)
Theorem C1_index_count_and_range rowRings colSegments :
  2 <= rowRings -> 3 <= colSegments ->
  rowRings * colSegments * 8 <= Int32.INT_MAX ->
  exists m,
    makeSculpture rowRings colSegments = Returned m /\
    Z.of_nat (length (indices m)) = (rowRings - 1) * colSegments * 6 /\
    indexCount m = (rowRings - 1) * colSegments * 6 /\
    Forall (fun i => 0 <= i < rowRings * colSegments) (indices m).
Proof.
  intros Hr Hc Hfit.
  destruct (makeSculpture_small rowRings colSegments) as [idx [Hm [Hlen Hval]]].
  - unfold Int32.INT_MAX in *. nia.
  - lia.
  - exact Hfit.
  - exists (mkMesh idx ((rowRings - 1) * colSegments * 6)).
    simpl. repeat split; assumption.
Qed.

(** The scenario of the specification: a 4 by 4 grid has 72 indices, all
    below 16. *)
Lemma C1_index_count_and_range_witness :
  2 <= 4 /\ 3 <= 4 /\ 4 * 4 * 8 <= Int32.INT_MAX /\
  exists m,
    makeSculpture 4 4 = Returned m /\
    Z.of_nat (length (indices m)) = (4 - 1) * 4 * 6 /\
    indexCount m = (4 - 1) * 4 * 6 /\
    Forall (fun i => 0 <= i < 4 * 4) (indices m).
Proof.
  split; [lia|]. split; [lia|]. split; [unfold Int32.INT_MAX; lia|].
  apply (C1_index_count_and_range 4 4); unfold Int32.INT_MAX; lia.
Defined.

(** C1 as stated fails: with ringCount = 2 and segmentCount = 134217728 the
    product 2 * 134217728 * 8 is 2^31, which wraps to INT_MIN; [v.reserve]
    receives it as a [size_t] beyond [max_size()] and throws, so no index
    is produced at all. *)
Lemma C1_large_grid_counterexample :
  2 <= 2 /\ 3 <= 134217728 /\ Int32.in_range 134217728 /\
  makeSculpture 2 134217728 = LengthError /\
  ~ (exists m,
       makeSculpture 2 134217728 = Returned m /\
       Z.of_nat (length (indices m)) = (2 - 1) * 134217728 * 6 /\
       Forall (fun i => 0 <= i < 2 * 134217728) (indices m)).
Proof.
  assert (H : makeSculpture 2 134217728 = LengthError) by (vm_compute; reflexivity).
  split; [lia|]. split; [lia|].
  split; [unfold Int32.in_range, Int32.INT_MIN, Int32.INT_MAX; lia|].
  split; [exact H|].
  intros [m [Hm _]]. rewrite H in Hm. discriminate Hm.
Qed.

(** On a still larger grid both capacities wrap to non-negative values, the
    loops run, and the seam quad of ring 0 holds an index that is not below
    ringCount*segmentCount. *)
Lemma large_grid_index_out_of_range :
  exists m i,
    makeSculpture 2 1431655766 = Returned m /\
    In i (indices m) /\ 2 * 1431655766 <= i.
Proof.
  exists (mkMesh (buildIndices 2 1431655766)
            (Int32.wrap (Z.of_nat (length (buildIndices 2 1431655766))))).
  exists 2863311532. split; [|split].
  - unfold makeSculpture.
    replace (reserve (Int32.mul (Int32.mul 2 1431655766) 8)) with (Returned tt)
      by (vm_compute; reflexivity).
    replace (reserve (Int32.mul (Int32.mul (Int32.sub 2 1) 1431655766) 6))
      with (Returned tt) by (vm_compute; reflexivity).
    reflexivity.
  - cbv [indices].
    rewrite buildIndices_flat_map
      by (unfold Int32.INT_MIN, Int32.INT_MAX; lia).
    apply in_flat_map. exists 0. split.
    + apply zseq_In. lia.
    + apply in_flat_map. exists 1431655765. split.
      * apply zseq_In. lia.
      * replace (quad 1431655766 0 1431655765)
          with [2863311531; 1; 2863311532; 2863311532; 1; 2]
          by (vm_compute; reflexivity).
        right. right. left. reflexivity.
  - lia.
Qed.

(** C2 (amended): makeSculpture has no check of its grid dimensions and no
    "invalid grid dimensions" condition.  A degenerate grid (ringCount < 2
    or segmentCount < 3) with ringCount >= 1, segmentCount >= 0 and a first
    capacity ringCount*segmentCount*8 that fits in a 32-bit int is built
    like any other: the call returns normally, with
    (ringCount-1)*segmentCount*6 indices (none when ringCount = 1 or
    segmentCount = 0), each still a valid slot below
    ringCount*segmentCount.  Where the capacity does not fit, [reserve] may
    throw, as for any other grid (at (268435456, 1) and (1, 268435456) it
    does); that is no check of the dimensions. *)
Theorem C2_degenerate_grid_not_rejected rowRings colSegments :
  1 <= rowRings <= Int32.INT_MAX -> 0 <= colSegments ->
  rowRings < 2 \/ colSegments < 3 ->
  rowRings * colSegments * 8 <= Int32.INT_MAX ->
  exists m,
    makeSculpture rowRings colSegments = Returned m /\
    fails (makeSculpture rowRings colSegments) = false /\
    Z.of_nat (length (indices m)) = (rowRings - 1) * colSegments * 6 /\
    indices_valid (rowRings * colSegments) (indices m).
Proof.
  intros Hr Hc _ Hfit.
  destruct (makeSculpture_small rowRings colSegments Hr Hc Hfit)
    as [idx [Hm [Hlen Hval]]].
  exists (mkMesh idx ((rowRings - 1) * colSegments * 6)).
  rewrite Hm. simpl. repeat split; assumption.
Qed.

Lemma C2_degenerate_grid_not_rejected_witness :
  1 <= 2 <= Int32.INT_MAX /\ 0 <= 2 /\ (2 < 2 \/ 2 < 3) /\
  2 * 2 * 8 <= Int32.INT_MAX /\
  exists m,
    makeSculpture 2 2 = Returned m /\
    fails (makeSculpture 2 2) = false /\
    Z.of_nat (length (indices m)) = (2 - 1) * 2 * 6 /\
    indices_valid (2 * 2) (indices m).
Proof.
  split; [unfold Int32.INT_MAX; lia|]. split; [lia|]. split; [lia|].
  split; [unfold Int32.INT_MAX; lia|].
  apply (C2_degenerate_grid_not_rejected 2 2); unfold Int32.INT_MAX; lia.
Defined.

(** C2 as stated fails: one ring of three segments (ringCount < 2) and two
    rings of two segments (segmentCount < 3) are both accepted; the first
    gives an empty index buffer, the second twelve indices. *)
Lemma C2_no_fail_fast_counterexample :
  1 < 2 /\ 2 < 3 /\
  fails (makeSculpture 1 3) = false /\
  makeSculpture 1 3 = Returned (mkMesh [] 0) /\
  fails (makeSculpture 2 2) = false /\
  makeSculpture 2 2 = Returned (mkMesh [0; 2; 1; 1; 2; 3; 1; 3; 0; 0; 3; 2] 12).
Proof.
  split; [lia|]. split; [lia|].
  repeat (split; [vm_compute; reflexivity|]).
  vm_compute; reflexivity.
Qed.

(** Degenerate grids whose first capacity wraps to a negative [int]: the
    exception comes from [reserve], as it does for a large grid that is not
    degenerate. *)
Example degenerate_grid_capacity_wraps :
  makeSculpture 268435456 1 = LengthError /\
  makeSculpture 1 268435456 = LengthError.
Proof. split; vm_compute; reflexivity. Qed.

(** The wrap of [toIndex] at the seam.  For a segment count whose double
    fits in an int and for every ring r, toIndex gives segment position
    segmentCount the index of segment position 0 of the same ring; on the
    positions 0..segmentCount used by makeSculpture it reduces c modulo
    segmentCount; and the last quad of a ring takes its two right corners
    from column 0. *)
Lemma toIndex_seam_wrap colSegments r :
  0 < colSegments -> 2 * colSegments <= Int32.INT_MAX ->
  toIndex colSegments r colSegments = toIndex colSegments r 0 /\
  (forall c, 0 <= c <= colSegments ->
     toIndex colSegments r c =
     Int32.add (Int32.mul r colSegments) (c mod colSegments)) /\
  quad colSegments r (colSegments - 1) =
    [ Int32.to_unsigned (toIndex colSegments r (colSegments - 1));
      Int32.to_unsigned (toIndex colSegments (Int32.add r 1) (colSegments - 1));
      Int32.to_unsigned (toIndex colSegments r 0);
      Int32.to_unsigned (toIndex colSegments r 0);
      Int32.to_unsigned (toIndex colSegments (Int32.add r 1) (colSegments - 1));
      Int32.to_unsigned (toIndex colSegments (Int32.add r 1) 0) ].
Proof.
  intros Hcs H2.
  assert (Hred : forall r' c, 0 <= c <= colSegments ->
            toIndex colSegments r' c =
            Int32.add (Int32.mul r' colSegments) (c mod colSegments)).
  { intros r' c Hc. unfold toIndex, Int32.rem. cbv zeta.
    unfold Int32.add at 2.
    rewrite (wrap_id (c + colSegments))
      by (unfold Int32.in_range, Int32.INT_MIN, Int32.INT_MAX in *; lia).
    rewrite Z.rem_mod_nonneg by lia.
    replace (c + colSegments) with (c + 1 * colSegments) by ring.
    now rewrite Z_mod_plus_full. }
  assert (Hseam : forall r', toIndex colSegments r' colSegments = toIndex colSegments r' 0).
  { intros r'. rewrite !Hred by lia.
    now rewrite Z_mod_same_full, Z.mod_0_l by lia. }
  split; [apply Hseam|]. split; [apply Hred|].
  unfold quad.
  assert (Hc1 : Int32.add (colSegments - 1) 1 = colSegments).
  { unfold Int32.add. replace (colSegments - 1 + 1) with colSegments by ring.
    apply wrap_id. unfold Int32.in_range, Int32.INT_MIN, Int32.INT_MAX in *. lia. }
  rewrite Hc1, !Hseam. reflexivity.
Qed.

End TopologyClaims.

(** * Binary32: special values, the aspect ratio, the arguments of the
      lights and the stored texture coordinates *)

Section Float32Claims.

Import Float32.

Example sampleNormal_unit_radius :
  sampleNormal one zero one = mkVec3 (fneg one) zero (S754_zero true).
Proof. vm_compute. reflexivity. Qed.

Example aspect_1280_720 : aspect 1280 720 = S754_finite false 14913081 (-23).
Proof. vm_compute. reflexivity. Qed.

(** [glm::normalize] has no guard.  Were the radius a zero, the cross
    product would be the zero vector, glm::normalize would multiply it by
    1/sqrt(0) = +infinity, and each of the three components of the normal
    would be NaN, whatever finite values sin(theta) and cos(theta) have.  No
    sample reaches this case: see [radius_bounds]. *)
Lemma sampleNormal_zero_radius_is_nan radius sinTheta cosTheta :
  is_zero radius = true ->
  is_finite sinTheta = true -> is_finite cosTheta = true ->
  sampleNormal radius sinTheta cosTheta = mkVec3 nan nan nan.
Proof.
  intros Hr Hs Hc.
  destruct radius as [br| | |]; try discriminate Hr.
  destruct sinTheta as [bs| | |bs ms es]; try discriminate Hs;
    destruct cosTheta as [bc| | |bc mc ec]; try discriminate Hc;
    destruct br, bs, bc; reflexivity.
Qed.

Example sampleNormal_zero_radius_at_angle_zero :
  sampleNormal zero zero one = mkVec3 nan nan nan /\
  is_nan (dot (sampleNormal zero zero one) (sampleNormal zero zero one)) = true.
Proof. split; vm_compute; reflexivity. Qed.

(** The guard of the aspect ratio looks at the width only. *)
Lemma aspect_width_not_positive w h : (w <= 0)%Z -> aspect w h = one.
Proof.
  intros Hw. unfold aspect.
  destruct (Z.gtb_spec w 0) as [Hgt|_]; [lia|reflexivity].
Qed.

(** With a positive width a zero height goes through the division, and the
    quotient by zero is an infinity or a NaN. *)
Lemma aspect_zero_height w : (0 < w)%Z -> is_finite (aspect w 0) = false.
Proof.
  intros Hw. unfold aspect.
  destruct (Z.gtb_spec w 0) as [_|Hle]; [|lia].
  change (of_int 0) with zero.
  destruct (of_int w) as [b| b | |b m e]; reflexivity.
Qed.

(** C4 (the code at the failing input): with a viewport 1280 wide and 0
    high the guard, which tests the width, lets the division by the height
    through; 1280.0f / 0.0f is evaluated and the aspect ratio is +infinity,
    not 1.0.  The fallback is taken only when the width is 0. *)
Theorem C4_zero_height_aspect_is_infinite :
  aspect 1280 0 = infinity /\
  aspect 1280 0 <> one /\
  aspect 0 0 = one.
Proof.
  split; [vm_compute; reflexivity|].
  split; [vm_compute; discriminate|vm_compute; reflexivity].
Qed.

(** C6 as stated fails on the [float] arithmetic of the program: the
    arguments [g_time * 0.7f + phase] of consecutive lights are binary32
    numbers, and their gaps are not one and the same number, so they are not
    all pi/2.  At g_time = 2 the four arguments are 11744051 * 2^-23,
    12460423 * 2^-22, 9524410 * 2^-21 and 12818609 * 2^-21; in units of
    2^-23 the three gaps are 13176795, 13176794 and 13176796 (the [float]
    subtractions below are exact: 2 * 12460423 - 11744051 = 13176795, and
    so on).  At g_time = 2^25 the arguments of lights 2 and 3 are the same
    number, so the two lights are given the same sine and the same cosine
    and are not a quarter turn apart. *)
Lemma C6_binary32_gaps_counterexample :
  orbitAngle (of_int 2) 0 = S754_finite false 11744051 (-23) /\
  orbitAngle (of_int 2) 1 = S754_finite false 12460423 (-22) /\
  orbitAngle (of_int 2) 2 = S754_finite false 9524410 (-21) /\
  orbitAngle (of_int 2) 3 = S754_finite false 12818609 (-21) /\
  fsub (orbitAngle (of_int 2) 1) (orbitAngle (of_int 2) 0)
    = S754_finite false 13176795 (-23) /\
  fsub (orbitAngle (of_int 2) 2) (orbitAngle (of_int 2) 1)
    = S754_finite false 13176794 (-23) /\
  fsub (orbitAngle (of_int 2) 3) (orbitAngle (of_int 2) 2)
    = S754_finite false 13176796 (-23) /\
  fsub (orbitAngle (of_int 2) 1) (orbitAngle (of_int 2) 0)
    <> fsub (orbitAngle (of_int 2) 2) (orbitAngle (of_int 2) 1) /\
  orbitAngle (of_int 33554432) 2 = orbitAngle (of_int 33554432) 3.
Proof.
  repeat (split; [vm_compute; reflexivity|]).
  split; [vm_compute; discriminate|vm_compute; reflexivity].
Qed.

(** C9 as stated fails: in the grid of 2 rings and 3 segments the vertices
    of ring 1 are stored with v = 1.0f / 1.0f = 1.0f, which is not below 1.
    It fails for u as well once the segment count exceeds 2^24: in a grid of
    2 rings and 2^24 + 1 segments, (float)(2^24 + 1) is 2^24 and the last
    segment is stored with u = 1.0f. *)
Lemma C9_last_ring_counterexample :
  In (uParam 3 0, vParam 2 1) (makeTexcoords 2 3) /\
  vParam 2 1 = one /\
  SFltb (vParam 2 1) one = false /\
  In (uParam 16777217 16777216, vParam 2 0) (makeTexcoords 2 16777217) /\
  uParam 16777217 16777216 = one /\
  SFltb (uParam 16777217 16777216) one = false.
Proof.
  split.
  { apply (proj2 (makeTexcoords_In 2 3 (uParam 3 0, vParam 2 1)
                    ltac:(int_lia) ltac:(int_lia))).
    exists 1, 0. split; [lia|]. split; [lia|reflexivity]. }
  split; [vm_compute; reflexivity|]. split; [vm_compute; reflexivity|].
  split.
  { apply (proj2 (makeTexcoords_In 2 16777217
                    (uParam 16777217 16777216, vParam 2 0)
                    ltac:(int_lia) ltac:(int_lia))).
    exists 0, 16777216. split; [lia|]. split; [lia|reflexivity]. }
  split; vm_compute; reflexivity.
Qed.

(** C9 (amended): in a grid of at least two rings, with ringCount - 1 and
    segmentCount at most 2^24, every texcoord stored is that of a ring r in
    [0, ringCount) and a segment c in [0, segmentCount), and for every such
    r and c the stored floats u = (float)c / segmentCount and
    v = (float)r / (ringCount - 1) satisfy 0 <= u < 1 and 0 <= v <= 1 as
    binary32 numbers: v is exactly 1.0 on the last ring r = ringCount-1 and
    below 1 on every other ring. *)
Theorem C9_texcoord_ranges_binary32 rowRings colSegments :
  2 <= rowRings -> rowRings - 1 <= exact_int_bound ->
  colSegments <= exact_int_bound ->
  (forall uv, In uv (makeTexcoords rowRings colSegments) ->
     exists r c, 0 <= r < rowRings /\ 0 <= c < colSegments /\
       uv = (uParam colSegments c, vParam rowRings r)) /\
  (forall r c, 0 <= r < rowRings -> 0 <= c < colSegments ->
     let u := uParam colSegments c in
     let v := vParam rowRings r in
     In (u, v) (makeTexcoords rowRings colSegments) /\
     SFleb zero u = true /\ SFltb u one = true /\
     SFleb zero v = true /\ SFleb v one = true /\
     (SFltb v one = true <-> r < rowRings - 1) /\
     (v = one <-> r = rowRings - 1)).
Proof.
  intros Hrr Hrb Hcb.
  assert (Hr' : rowRings <= Int32.INT_MAX)
    by (unfold exact_int_bound in Hrb; int_lia).
  assert (Hc' : colSegments <= Int32.INT_MAX)
    by (unfold exact_int_bound in Hcb; int_lia).
  split.
  - intros uv Hin. now apply makeTexcoords_In in Hin.
  - intros r c Hr Hc u v.
    destruct (uParam_range_binary32 colSegments c Hc Hcb) as [Hu0 Hu1].
    destruct (vParam_range_binary32 rowRings r Hrr Hrb Hr)
      as [Hv0 [Hv1 [Hvlt Hveq]]].
    split.
    { apply makeTexcoords_In; [exact Hr'|exact Hc'|]. now exists r, c. }
    split; [exact Hu0|]. split; [exact Hu1|]. split; [exact Hv0|].
    split; [exact Hv1|]. split; [exact Hvlt|exact Hveq].
Qed.

(** The grid of the program: 140 rings of 180 segments. *)
Lemma C9_texcoord_ranges_binary32_witness :
  2 <= 140 /\ 140 - 1 <= exact_int_bound /\ 180 <= exact_int_bound /\
  (forall uv, In uv (makeTexcoords 140 180) ->
     exists r c, 0 <= r < 140 /\ 0 <= c < 180 /\
       uv = (uParam 180 c, vParam 140 r)) /\
  (forall r c, 0 <= r < 140 -> 0 <= c < 180 ->
     let u := uParam 180 c in
     let v := vParam 140 r in
     In (u, v) (makeTexcoords 140 180) /\
     SFleb zero u = true /\ SFltb u one = true /\
     SFleb zero v = true /\ SFleb v one = true /\
     (SFltb v one = true <-> r < 140 - 1) /\
     (v = one <-> r = 140 - 1)).
Proof.
  split; [lia|]. split; [unfold exact_int_bound; lia|].
  split; [unfold exact_int_bound; lia|].
  apply (C9_texcoord_ranges_binary32 140 180); unfold exact_int_bound; lia.
Defined.

(** Both bounds are needed where they stand: with 2^24 + 1 segments the
    last segment is stored with u = 1.0 ([uParam_rounds_to_one_binary32]),
    and with 2^24 + 2 rings the ring before the last is stored with
    v = 1.0. *)
Example vParam_rounds_to_one_binary32 :
  vParam (exact_int_bound + 2) exact_int_bound = one.
Proof. vm_compute. reflexivity. Qed.

End Float32Claims.

(** * The formulas: lights, normals and texture coordinates *)

Section IdealClaims.

Import Loops Ideal.

Local Open Scope R_scope.

(** The scenario of the specification: 16 samples for a 4 by 4 grid, the
    first ring at height -1.5 and the last at 1.5. *)
Example makeVertices_4_4 g_time :
  List.length (makeVertices 4 4 g_time) = 16%nat /\
  height 4 0 = -1.5 /\ height 4 3 = 1.5.
Proof.
  split; [|split].
  - apply Nat2Z.inj. rewrite makeVertices_length; unfold Int32.INT_MAX; lia.
  - unfold height. rewrite vParam_eq by (unfold Int32.INT_MAX; lia).
    simpl. lra.
  - unfold height. rewrite vParam_eq by (unfold Int32.INT_MAX; lia).
    simpl. lra.
Qed.

(** C5: for every light index i in [0, 4) and every time t, the animation
    loop leaves in pointLights[i] the position x = R*sin(omega1*t + i*pi/2),
    z = R*cos(omega1*t + i*pi/2), y = Y0 + Ay*sin(omega2*t + i), with
    R = 1.8, omega1 = 0.7, Y0 = 1.0, Ay = 0.4, omega2 = 1.3; at i = 0 and
    t = 0 the position is x = 0, z = R, y = Y0. *)
Theorem C5_light_position_formula g_time lights i :
  List.length lights = 4%nat -> (0 <= i < 4)%Z ->
  let p := light (animateLights g_time lights) i in
  (vx p = 1.8 * sin (0.7 * g_time + IZR i * (PI / 2)) /\
   vz p = 1.8 * cos (0.7 * g_time + IZR i * (PI / 2)) /\
   vy p = 1.0 + 0.4 * sin (1.3 * g_time + IZR i)) /\
  light (animateLights 0 lights) 0 = mkVec3 0 1.0 1.8.
Proof.
  intros Hlen Hi p. split.
  - subst p. rewrite light_animated by assumption. simpl.
    unfold orbitAngle, phase, half_pi.
    rewrite (Rmult_comm g_time 0.7), (Rmult_comm g_time 1.3).
    repeat split; reflexivity.
  - rewrite light_animated by (assumption || lia).
    unfold orbitAngle, phase, half_pi.
    replace (0 * 0.7 + 0 * (PI / 2)) with 0 by lra.
    replace (0 * 1.3 + 0) with 0 by lra.
    rewrite sin_0, cos_0. f_equal; lra.
Qed.

Lemma C5_light_position_formula_witness :
  List.length pointLights_init = 4%nat /\ (0 <= 3 < 4)%Z /\
  let p := light (animateLights 2 pointLights_init) 3 in
  (vx p = 1.8 * sin (0.7 * 2 + 3 * (PI / 2)) /\
   vz p = 1.8 * cos (0.7 * 2 + 3 * (PI / 2)) /\
   vy p = 1.0 + 0.4 * sin (1.3 * 2 + 3)) /\
  light (animateLights 0 pointLights_init) 0 = mkVec3 0 1.0 1.8.
Proof.
  split; [reflexivity|]. split; [lia|].
  apply (C5_light_position_formula 2 pointLights_init 3); [reflexivity|lia].
Defined.

(** C6 (amended): with the [float] operations of the animation loop read
    as the exact operations on real numbers (rounding left out), at every
    time t the arguments of sin and cos used for lights i and i+1 differ by
    exactly pi/2, and every animated light, whose x and z are R*sin and
    R*cos of that argument, lies at horizontal distance exactly R = 1.8 from
    the vertical axis: x^2 + z^2 = R^2. *)
Theorem C6_quarter_turn_and_fixed_radius g_time lights i :
  List.length lights = 4%nat -> (0 <= i < 4)%Z ->
  let p := light (animateLights g_time lights) i in
  orbitAngle g_time (i + 1) - orbitAngle g_time i = PI / 2 /\
  vx p = 1.8 * sin (orbitAngle g_time i) /\
  vz p = 1.8 * cos (orbitAngle g_time i) /\
  vx p * vx p + vz p * vz p = 1.8 * 1.8 /\
  sqrt (vx p * vx p + vz p * vz p) = 1.8.
Proof.
  intros Hlen Hi p.
  assert (Hsq : vx p * vx p + vz p * vz p = 1.8 * 1.8).
  { subst p. rewrite light_animated by assumption. simpl.
    pose proof (sin_cos_sq (orbitAngle g_time i)) as H. nra. }
  split; [|split; [|split; [|split]]].
  - unfold orbitAngle, phase, half_pi. rewrite plus_IZR. simpl. lra.
  - subst p. now rewrite light_animated by assumption.
  - subst p. now rewrite light_animated by assumption.
  - exact Hsq.
  - rewrite Hsq. apply sqrt_square. lra.
Qed.

Lemma C6_quarter_turn_and_fixed_radius_witness :
  List.length pointLights_init = 4%nat /\ (0 <= 1 < 4)%Z /\
  let p := light (animateLights 2 pointLights_init) 1 in
  orbitAngle 2 (1 + 1) - orbitAngle 2 1 = PI / 2 /\
  vx p = 1.8 * sin (orbitAngle 2 1) /\
  vz p = 1.8 * cos (orbitAngle 2 1) /\
  vx p * vx p + vz p * vz p = 1.8 * 1.8 /\
  sqrt (vx p * vx p + vz p * vz p) = 1.8.
Proof.
  split; [reflexivity|]. split; [lia|].
  apply (C6_quarter_turn_and_fixed_radius 2 pointLights_init 1); [reflexivity|lia].
Defined.

(** C8: for every (ring, segment, time) sample of a grid of at least two
    rings whose computed radius is not zero, the normal stored in the
    vertex buffer has length 1. *)
Theorem C8_normal_has_unit_length rowRings colSegments g_time r c :
  (2 <= rowRings <= Int32.INT_MAX)%Z -> (colSegments <= Int32.INT_MAX)%Z ->
  (0 <= r < rowRings)%Z -> (0 <= c < colSegments)%Z ->
  radius rowRings colSegments g_time r c <> 0 ->
  let vtx := sampleVertex rowRings colSegments g_time r c in
  In vtx (makeVertices rowRings colSegments g_time) /\
  length (nrm vtx) = 1.
Proof.
  intros Hrr Hcs Hr Hc Hne vtx. split.
  - apply makeVertices_In; [lia|exact Hcs|]. now exists r, c.
  - subst vtx. unfold sampleVertex, length. cbv zeta. cbn [nrm].
    rewrite normalAt_unit by exact Hne. apply sqrt_1.
Qed.

Lemma C8_normal_has_unit_length_witness :
  (2 <= 140 <= Int32.INT_MAX)%Z /\ (180 <= Int32.INT_MAX)%Z /\
  (0 <= 139 < 140)%Z /\ (0 <= 45 < 180)%Z /\
  radius 140 180 0 139 45 <> 0 /\
  let vtx := sampleVertex 140 180 0 139 45 in
  In vtx (makeVertices 140 180 0) /\
  length (nrm vtx) = 1.
Proof.
  assert (Hne : radius 140 180 0 139 45 <> 0)
    by (apply Rgt_not_eq, Rlt_gt, radius_pos).
  split; [unfold Int32.INT_MAX; lia|]. split; [unfold Int32.INT_MAX; lia|].
  split; [lia|]. split; [lia|]. split; [exact Hne|].
  apply (C8_normal_has_unit_length 140 180 0 139 45);
    try (unfold Int32.INT_MAX; lia).
  exact Hne.
Defined.

(** The texture coordinates as exact quotients: every vertex produced for
    a grid of at least two rings is the sample of a ring r in [0, ringCount)
    and a segment c in [0, segmentCount); over the reals its texcoord is
    u = c/segmentCount, in [0,1), and v = r/(ringCount-1), in the closed
    range [0,1], with v = 1 on the last ring only.  The stored floats are
    studied in [Float32]. *)
Lemma texcoord_ranges_exact rowRings colSegments g_time vtx :
  (2 <= rowRings <= Int32.INT_MAX)%Z ->
  (colSegments <= Int32.INT_MAX)%Z ->
  In vtx (makeVertices rowRings colSegments g_time) ->
  exists r c,
    (0 <= r < rowRings)%Z /\ (0 <= c < colSegments)%Z /\
    tex_u vtx = IZR c / IZR colSegments /\
    tex_v vtx = IZR r / IZR (rowRings - 1) /\
    0 <= tex_u vtx < 1 /\
    0 <= tex_v vtx <= 1 /\
    (tex_v vtx = 1 <-> r = (rowRings - 1)%Z).
Proof.
  intros Hrr Hcs Hin.
  apply makeVertices_In in Hin; [|lia|exact Hcs].
  destruct Hin as [r [c [Hr [Hc ->]]]].
  exists r, c. unfold sampleVertex. simpl.
  split; [exact Hr|]. split; [exact Hc|].
  split; [reflexivity|]. split; [now apply vParam_eq|].
  split; [now apply uParam_range|].
  split; [now apply vParam_range|now apply vParam_one_iff].
Qed.

(** C10: for every (ring, segment, time) sample of a grid of at least two
    rings the y-component of the normal is exactly 0, and when radius > 0
    the normal is (-cos theta, 0, -sin theta): it is the horizontal radial
    direction (x, 0, z) of the sample position scaled by -1/radius, so it
    points toward the vertical axis and not away from it. *)
Theorem C10_normal_is_horizontal_and_inward rowRings colSegments g_time r c :
  (2 <= rowRings <= Int32.INT_MAX)%Z -> (colSegments <= Int32.INT_MAX)%Z ->
  (0 <= r < rowRings)%Z -> (0 <= c < colSegments)%Z ->
  let vtx := sampleVertex rowRings colSegments g_time r c in
  let rad := radius rowRings colSegments g_time r c in
  let th := theta colSegments c in
  In vtx (makeVertices rowRings colSegments g_time) /\
  vy (nrm vtx) = 0 /\
  (0 < rad ->
   nrm vtx = mkVec3 (- cos th) 0 (- sin th) /\
   vx (pos vtx) = rad * cos th /\ vz (pos vtx) = rad * sin th /\
   nrm vtx = scale (mkVec3 (vx (pos vtx)) 0 (vz (pos vtx))) (- / rad)).
Proof.
  intros Hrr Hcs Hr Hc vtx rad th. split.
  { apply makeVertices_In; [lia|exact Hcs|]. now exists r, c. }
  subst vtx. unfold sampleVertex.
  cbv zeta. cbn [nrm pos vx vy vz]. fold rad. fold th. split.
  - now rewrite normalAt_eq.
  - intros Hpos. rewrite normalAt_pos by exact Hpos.
    split; [reflexivity|]. split; [reflexivity|]. split; [reflexivity|].
    unfold scale. cbn [vx vy vz]. f_equal; field; lra.
Qed.

Lemma C10_normal_is_horizontal_and_inward_witness :
  (2 <= 140 <= Int32.INT_MAX)%Z /\ (180 <= Int32.INT_MAX)%Z /\
  (0 <= 139 < 140)%Z /\ (0 <= 45 < 180)%Z /\
  0 < radius 140 180 0 139 45 /\
  vy (nrm (sampleVertex 140 180 0 139 45)) = 0 /\
  nrm (sampleVertex 140 180 0 139 45) =
    mkVec3 (- cos (theta 180 45)) 0 (- sin (theta 180 45)).
Proof.
  split; [unfold Int32.INT_MAX; lia|]. split; [unfold Int32.INT_MAX; lia|].
  split; [lia|]. split; [lia|]. split; [apply radius_pos|].
  destruct (C10_normal_is_horizontal_and_inward 140 180 0 139 45)
    as [_ [Hy Hn]]; try (unfold Int32.INT_MAX; lia).
  split; [exact Hy|]. apply Hn, radius_pos.
Defined.

End IdealClaims.

(** * Further properties of the index buffer *)

Section ChunkFacts.

Import Loops.

Context {A B : Type}.

Lemma zseq_nth_error start len i :
  (i < len)%nat -> nth_error (zseq start len) i = Some (start + Z.of_nat i).
Proof.
  revert start i. induction len as [|k IH]; intros start i Hi; [lia|].
  destruct i as [|i]; simpl.
  - f_equal. lia.
  - rewrite IH by lia. f_equal. lia.
Qed.

(** Element [i * k + j] of a concatenation of pieces of length [k] is
    element [j] of piece [i]. *)
Lemma flat_map_nth_error (f : B -> list A) k l i j x :
  (forall y, In y l -> length (f y) = k) ->
  nth_error l i = Some x -> (j < k)%nat ->
  nth_error (flat_map f l) (i * k + j) = nth_error (f x) j.
Proof.
  revert i. induction l as [|y l IH]; intros i Hk Hi Hj.
  - destruct i; discriminate Hi.
  - simpl. destruct i as [|i]; simpl in Hi.
    + injection Hi as ->. simpl. rewrite nth_error_app1; [reflexivity|].
      rewrite (Hk x) by now left. exact Hj.
    + rewrite nth_error_app2 by (rewrite (Hk y) by (now left); simpl; lia).
      rewrite (Hk y) by now left.
      replace (Datatypes.S i * k + j - k)%nat with (i * k + j)%nat by (simpl; lia).
      apply IH; auto. intros z Hz. apply Hk. now right.
Qed.

Lemma flat_map_nil (f : B -> list A) l :
  (forall y, In y l -> f y = []) -> flat_map f l = [].
Proof.
  induction l as [|y l IH]; intros Hf; simpl; [reflexivity|].
  rewrite (Hf y) by now left. apply IH. intros z Hz. apply Hf. now right.
Qed.

End ChunkFacts.

Section FaceFacts.

Import Loops Topology Faces.

Lemma triangles_app6 l rest :
  length l = 6%nat -> triangles (l ++ rest) = triangles l ++ triangles rest.
Proof.
  destruct l as [|a [|b [|c [|d [|e [|f [|g l]]]]]]]; simpl; intros H;
    try discriminate H. reflexivity.
Qed.

Lemma triangles_flat_map {B : Type} (q : B -> list Z) l :
  (forall x, In x l -> length (q x) = 6%nat) ->
  triangles (flat_map q l) = flat_map (fun x => triangles (q x)) l.
Proof.
  induction l as [|x l IH]; intros Hq; simpl; [reflexivity|].
  rewrite triangles_app6 by (apply Hq; now left).
  rewrite IH; [reflexivity|]. intros y Hy. apply Hq. now right.
Qed.

(** The four corners of a quad inside a grid that fits in an [int]. *)
Lemma quad_corners rowRings colSegments r c :
  0 < colSegments -> 0 <= r < rowRings - 1 -> 0 <= c < colSegments ->
  rowRings * colSegments <= Int32.INT_MAX ->
  2 * colSegments <= Int32.INT_MAX ->
  quad colSegments r c =
  [ r * colSegments + c;
    (r + 1) * colSegments + c;
    r * colSegments + (c + 1) mod colSegments;
    r * colSegments + (c + 1) mod colSegments;
    (r + 1) * colSegments + c;
    (r + 1) * colSegments + (c + 1) mod colSegments ].
Proof.
  intros Hcs Hr Hc Hfit H2.
  assert (Hrc : (r + 2) * colSegments <= rowRings * colSegments) by nia.
  assert (Hr1 : Int32.add r 1 = r + 1).
  { unfold Int32.add. apply wrap_id. int_nia. }
  assert (Hc1 : Int32.add c 1 = c + 1).
  { unfold Int32.add. apply wrap_id. int_lia. }
  assert (Hm : 0 <= (c + 1) mod colSegments < colSegments)
    by (apply Z.mod_pos_bound; lia).
  unfold quad. rewrite Hr1, Hc1. cbv zeta.
  rewrite !toIndex_small by (try lia; int_nia).
  rewrite (Z.mod_small c) by lia.
  rewrite !to_unsigned_id by int_nia.
  reflexivity.
Qed.

Lemma triangles_app3 n :
  forall l rest,
    length l = (3 * n)%nat ->
    triangles (l ++ rest) = triangles l ++ triangles rest.
Proof.
  induction n as [|n IH]; intros l rest Hl.
  - destruct l; [reflexivity|discriminate Hl].
  - destruct l as [|a [|b [|c l]]]; simpl in Hl; try lia.
    simpl. f_equal. apply IH. lia.
Qed.

Lemma triangles_flat_map3 {B : Type} (f : B -> list Z) l :
  (forall x, In x l -> exists n, length (f x) = (3 * n)%nat) ->
  triangles (flat_map f l) = flat_map (fun x => triangles (f x)) l.
Proof.
  induction l as [|x l IH]; intros Hf; simpl; [reflexivity|].
  destruct (Hf x (or_introl eq_refl)) as [n Hn].
  rewrite (triangles_app3 n) by exact Hn.
  rewrite IH; [reflexivity|]. intros y Hy. apply Hf. now right.
Qed.

(** The triangles of the element buffer, quad by quad. *)
Lemma triangles_buildIndices rowRings colSegments :
  Int32.INT_MIN < rowRings <= Int32.INT_MAX ->
  colSegments <= Int32.INT_MAX ->
  triangles (buildIndices rowRings colSegments) =
  flat_map (fun r => flat_map (fun c => triangles (quad colSegments r c))
                              (zseq 0 (Z.to_nat colSegments)))
           (zseq 0 (Z.to_nat (rowRings - 1))).
Proof.
  intros Hr Hc. rewrite buildIndices_flat_map by assumption.
  rewrite triangles_flat_map3.
  - apply flat_map_ext. intros r. apply triangles_flat_map3.
    intros c _. exists 2%nat. apply quad_length.
  - intros r _. exists (Z.to_nat colSegments * 2)%nat.
    rewrite (flat_map_length_const _ 6%nat).
    + rewrite zseq_length. lia.
    + intros c _. apply quad_length.
Qed.

(** [reserve] on an [int]: it throws exactly on the negative ones. *)
Lemma reserve_int n :
  Int32.in_range n ->
  reserve n = if n <? 0 then LengthError else Returned tt.
Proof.
  intros Hn. unfold reserve, Int32.to_size_t, vector_max_size.
  destruct (Z.ltb_spec n 0) as [Hneg|Hpos].
  - replace (n mod 18446744073709551616) with (n + 18446744073709551616).
    + destruct (Z.gtb_spec (n + 18446744073709551616) 2305843009213693951);
        [reflexivity|int_lia].
    + symmetry. rewrite <- (Z_mod_plus_full n 1 18446744073709551616).
      apply Z.mod_small. int_lia.
  - rewrite Z.mod_small by int_lia.
    destruct (Z.gtb_spec n 2305843009213693951); [int_lia|reflexivity].
Qed.

(** A grid that [makeSculpture] builds: what it returns. *)
Lemma makeSculpture_returns rowRings colSegments :
  1 <= rowRings <= Int32.INT_MAX -> 0 <= colSegments ->
  rowRings * colSegments * 8 <= Int32.INT_MAX ->
  makeSculpture rowRings colSegments =
  Returned (mkMesh (buildIndices rowRings colSegments)
                   ((rowRings - 1) * colSegments * 6)).
Proof.
  intros Hr Hc Hfit.
  destruct (makeSculpture_small rowRings colSegments Hr Hc Hfit)
    as [idx [Hm _]].
  rewrite Hm. unfold makeSculpture in Hm.
  destruct (reserve (Int32.mul (Int32.mul rowRings colSegments) 8));
    [|discriminate Hm].
  destruct (reserve (Int32.mul (Int32.mul (Int32.sub rowRings 1) colSegments) 6));
    [|discriminate Hm].
  cbv zeta in Hm. injection Hm as Hidx _. now rewrite Hidx.
Qed.

End FaceFacts.

(** * The seam in the element buffer *)

Section SeamClaim.

Import Loops Topology.

(** Where the quad of ring [r] and segment [c] stands in the buffer. *)
Lemma buildIndices_nth_error rowRings colSegments r c k :
  2 <= rowRings -> 1 <= colSegments ->
  rowRings * colSegments * 8 <= Int32.INT_MAX ->
  0 <= r < rowRings - 1 -> 0 <= c < colSegments -> (k < 6)%nat ->
  nth_error (buildIndices rowRings colSegments)
            (Z.to_nat (6 * (r * colSegments + c)) + k) =
  nth_error (quad colSegments r c) k.
Proof.
  intros Hrr Hcs Hfit Hr Hc Hk.
  rewrite buildIndices_flat_map by int_nia.
  replace (Z.to_nat (6 * (r * colSegments + c)) + k)%nat
    with (Z.to_nat r * (Z.to_nat colSegments * 6) + (Z.to_nat c * 6 + k))%nat
    by nia.
  rewrite (flat_map_nth_error _ (Z.to_nat colSegments * 6)%nat _ _ _ r).
  - apply (flat_map_nth_error _ 6%nat _ _ _ c).
    + intros y _. apply quad_length.
    + rewrite zseq_nth_error by lia. f_equal. lia.
    + exact Hk.
  - intros y _. rewrite (flat_map_length_const _ 6%nat).
    + now rewrite zseq_length.
    + intros x _. apply quad_length.
  - rewrite zseq_nth_error by lia. f_equal. lia.
  - nia.
Qed.

(** C7 as stated fails: toIndex adds segmentCount to c in [int] before the
    [%], and with segmentCount = 1431655766 the sum
    segmentCount + segmentCount wraps to a negative [int]; the index computed
    for segment position segmentCount in ring 0 is then -1431655764, not the
    index 0 of segment position 0, and the element buffer receives it as
    2863311532 = 2 * segmentCount, beyond every vertex of a grid of two
    rings. *)
Lemma C7_seam_does_not_wrap_counterexample :
  0 < 1431655766 <= Int32.INT_MAX /\
  toIndex 1431655766 0 1431655766 <> toIndex 1431655766 0 0 /\
  toIndex 1431655766 0 0 = 0 /\
  toIndex 1431655766 0 1431655766 = -1431655764 /\
  Int32.to_unsigned (toIndex 1431655766 0 1431655766) = 2 * 1431655766.
Proof.
  split; [unfold Int32.INT_MAX; lia|].
  split; [vm_compute; discriminate|].
  split; [vm_compute; reflexivity|].
  split; vm_compute; reflexivity.
Qed.

(** C7 (amended): in a grid of ringCount >= 2 rings and segmentCount >= 1
    segments whose first capacity ringCount*segmentCount*8 fits in a 32-bit
    int, the topology stitches the circumferential seam rather than
    duplicating it.  For every ring r' the index computed for segment
    position segmentCount is the index computed for segment position 0 of
    the same ring, r'*segmentCount, and on the positions 0..segmentCount
    toIndex reduces c modulo segmentCount.  In the element buffer that
    makeSculpture returns, the last quad of every ring r < ringCount-1
    (the six indices from position 6*(r*segmentCount + segmentCount-1) on)
    takes its corners i1 and i3 from segment 0 of rings r and r+1, and every
    index of the buffer is below ringCount*segmentCount: no duplicate seam
    vertex is referenced. *)
Theorem C7_seam_stitched_in_element_buffer rowRings colSegments r :
  2 <= rowRings -> 1 <= colSegments ->
  rowRings * colSegments * 8 <= Int32.INT_MAX ->
  0 <= r < rowRings - 1 ->
  (forall r', 0 <= r' < rowRings ->
     toIndex colSegments r' colSegments = toIndex colSegments r' 0 /\
     toIndex colSegments r' 0 = r' * colSegments /\
     forall c, 0 <= c <= colSegments ->
       toIndex colSegments r' c = r' * colSegments + c mod colSegments) /\
  exists m,
    makeSculpture rowRings colSegments = Returned m /\
    (forall k, (k < 6)%nat ->
       nth_error (indices m)
                 (Z.to_nat (6 * (r * colSegments + (colSegments - 1))) + k) =
       nth_error [ r * colSegments + (colSegments - 1);
                   (r + 1) * colSegments + (colSegments - 1);
                   toIndex colSegments r 0;
                   toIndex colSegments r 0;
                   (r + 1) * colSegments + (colSegments - 1);
                   toIndex colSegments (r + 1) 0 ] k) /\
    Forall (fun i => 0 <= i < rowRings * colSegments) (indices m).
Proof.
  intros Hrr Hcs Hfit Hr.
  assert (Hidx : forall r' c, 0 <= r' < rowRings -> 0 <= c <= colSegments ->
            toIndex colSegments r' c = r' * colSegments + c mod colSegments).
  { intros r' c Hr' Hc.
    assert (Hrc : (r' + 1) * colSegments <= rowRings * colSegments) by nia.
    assert (Hm : 0 <= c mod colSegments < colSegments)
      by (apply Z.mod_pos_bound; lia).
    destruct (toIndex_seam_wrap colSegments r') as [_ [Hred _]];
      [lia|int_nia|].
    rewrite Hred by exact Hc.
    unfold Int32.add, Int32.mul.
    rewrite (wrap_id (r' * colSegments)) by int_nia.
    apply wrap_id. int_nia. }
  assert (Hzero : forall r', 0 <= r' < rowRings ->
            toIndex colSegments r' 0 = r' * colSegments).
  { intros r' Hr'. rewrite Hidx by lia. rewrite Z.mod_0_l by lia. ring. }
  split.
  { intros r' Hr'. split; [|split].
    - rewrite !Hidx by lia.
      now rewrite Z_mod_same_full, Z.mod_0_l by lia.
    - now apply Hzero.
    - intros c Hc. now apply Hidx. }
  eexists. split; [apply makeSculpture_returns; int_nia|].
  cbn [indices]. split.
  - intros k Hk.
    rewrite buildIndices_nth_error by (assumption || lia).
    rewrite (quad_corners rowRings) by int_nia.
    replace (colSegments - 1 + 1) with colSegments by ring.
    rewrite Z_mod_same_full, !Hzero by lia.
    now rewrite !Z.add_0_r.
  - destruct (makeSculpture_small rowRings colSegments) as [idx [Hm [_ Hval]]];
      [int_nia|lia|exact Hfit|].
    rewrite makeSculpture_returns in Hm by int_nia.
    injection Hm as Hidx'. rewrite Hidx'. exact Hval.
Qed.

(** The grid of the program: 140 rings of 180 segments, ring 7. *)
Lemma C7_seam_stitched_in_element_buffer_witness :
  2 <= 140 /\ 1 <= 180 /\ 140 * 180 * 8 <= Int32.INT_MAX /\ 0 <= 7 < 140 - 1 /\
  (forall r', 0 <= r' < 140 ->
     toIndex 180 r' 180 = toIndex 180 r' 0 /\
     toIndex 180 r' 0 = r' * 180 /\
     forall c, 0 <= c <= 180 -> toIndex 180 r' c = r' * 180 + c mod 180) /\
  exists m,
    makeSculpture 140 180 = Returned m /\
    (forall k, (k < 6)%nat ->
       nth_error (indices m) (Z.to_nat (6 * (7 * 180 + (180 - 1))) + k) =
       nth_error [ 7 * 180 + (180 - 1);
                   (7 + 1) * 180 + (180 - 1);
                   toIndex 180 7 0;
                   toIndex 180 7 0;
                   (7 + 1) * 180 + (180 - 1);
                   toIndex 180 (7 + 1) 0 ] k) /\
    Forall (fun i => 0 <= i < 140 * 180) (indices m).
Proof.
  split; [lia|]. split; [lia|]. split; [unfold Int32.INT_MAX; lia|].
  split; [lia|].
  apply (C7_seam_stitched_in_element_buffer 140 180 7);
    unfold Int32.INT_MAX; lia.
Defined.

End SeamClaim.

Section TopologyExtras.

Import Loops Topology Faces.

(** X1: in a grid that fits, the six indices of the quad of ring r and
    segment c stand at positions 6*(r*segmentCount + c) + k, k = 0..5, of the
    element buffer (ring after ring, segment after segment), and they are
    i0, i2, i1, i1, i2, i3 with i0 = r*S + c, i1 = r*S + (c+1) mod S,
    i2 = (r+1)*S + c, i3 = (r+1)*S + (c+1) mod S. *)
Theorem X1_index_buffer_layout rowRings colSegments r c k :
  2 <= rowRings -> 1 <= colSegments ->
  rowRings * colSegments * 8 <= Int32.INT_MAX ->
  0 <= r < rowRings - 1 -> 0 <= c < colSegments -> (k < 6)%nat ->
  exists m,
    makeSculpture rowRings colSegments = Returned m /\
    nth_error (indices m) (Z.to_nat (6 * (r * colSegments + c)) + k) =
    nth_error [ r * colSegments + c;
                (r + 1) * colSegments + c;
                r * colSegments + (c + 1) mod colSegments;
                r * colSegments + (c + 1) mod colSegments;
                (r + 1) * colSegments + c;
                (r + 1) * colSegments + (c + 1) mod colSegments ] k.
Proof.
  intros Hrr Hcs Hfit Hr Hc Hk.
  assert (Hrc : (r + 2) * colSegments <= rowRings * colSegments) by nia.
  eexists. split.
  { apply makeSculpture_returns; int_nia. }
  cbn [indices].
  rewrite buildIndices_flat_map by int_nia.
  rewrite <- (quad_corners rowRings colSegments r c) by int_nia.
  replace (Z.to_nat (6 * (r * colSegments + c)) + k)%nat
    with (Z.to_nat r * (Z.to_nat colSegments * 6) + (Z.to_nat c * 6 + k))%nat
    by nia.
  rewrite (flat_map_nth_error _ (Z.to_nat colSegments * 6)%nat _ _ _ r).
  - apply (flat_map_nth_error _ 6%nat _ _ _ c).
    + intros y _. apply quad_length.
    + rewrite zseq_nth_error by lia. f_equal. lia.
    + exact Hk.
  - intros y _. rewrite (flat_map_length_const _ 6%nat).
    + now rewrite zseq_length.
    + intros x _. apply quad_length.
  - rewrite zseq_nth_error by lia. f_equal. lia.
  - nia.
Qed.

Lemma X1_index_buffer_layout_witness :
  2 <= 4 /\ 1 <= 4 /\ 4 * 4 * 8 <= Int32.INT_MAX /\
  0 <= 2 < 4 - 1 /\ 0 <= 3 < 4 /\ (2 < 6)%nat /\
  exists m,
    makeSculpture 4 4 = Returned m /\
    nth_error (indices m) (Z.to_nat (6 * (2 * 4 + 3)) + 2) =
    nth_error [ 2 * 4 + 3; (2 + 1) * 4 + 3; 2 * 4 + (3 + 1) mod 4;
                2 * 4 + (3 + 1) mod 4; (2 + 1) * 4 + 3;
                (2 + 1) * 4 + (3 + 1) mod 4 ] 2.
Proof.
  split; [lia|]. split; [lia|]. split; [unfold Int32.INT_MAX; lia|].
  split; [lia|]. split; [lia|]. split; [lia|].
  apply (X1_index_buffer_layout 4 4 2 3 2); unfold Int32.INT_MAX; lia.
Defined.

(** X2: in a grid of at least two rings that fits, every slot of the vertex
    buffer, 0 <= v < ringCount*segmentCount, is the corner of some triangle:
    the index buffer leaves no vertex unused. *)
Theorem X2_every_vertex_is_referenced rowRings colSegments v :
  2 <= rowRings -> 1 <= colSegments ->
  rowRings * colSegments * 8 <= Int32.INT_MAX ->
  0 <= v < rowRings * colSegments ->
  exists m,
    makeSculpture rowRings colSegments = Returned m /\ In v (indices m).
Proof.
  intros Hrr Hcs Hfit Hv.
  eexists. split.
  { apply makeSculpture_returns; int_nia. }
  cbn [indices].
  rewrite buildIndices_flat_map by int_nia.
  pose proof (Z.div_mod v colSegments ltac:(lia)) as Hdm.
  pose proof (Z.mod_pos_bound v colSegments ltac:(lia)) as Hmod.
  set (r := v / colSegments) in *. set (c := v mod colSegments) in *.
  assert (Hr : 0 <= r < rowRings).
  { split; [apply Z.div_pos; lia|]. apply Z.div_lt_upper_bound; nia. }
  destruct (Z_lt_dec r (rowRings - 1)) as [Hlt|Hlast].
  - apply in_flat_map. exists r. split; [apply zseq_In; lia|].
    apply in_flat_map. exists c. split; [apply zseq_In; lia|].
    rewrite (quad_corners rowRings) by int_nia.
    left. lia.
  - apply in_flat_map. exists (r - 1). split; [apply zseq_In; lia|].
    apply in_flat_map. exists c. split; [apply zseq_In; lia|].
    rewrite (quad_corners rowRings) by int_nia.
    right. left. lia.
Qed.

Lemma X2_every_vertex_is_referenced_witness :
  2 <= 4 /\ 1 <= 4 /\ 4 * 4 * 8 <= Int32.INT_MAX /\ 0 <= 15 < 4 * 4 /\
  exists m, makeSculpture 4 4 = Returned m /\ In 15 (indices m).
Proof.
  split; [lia|]. split; [lia|]. split; [unfold Int32.INT_MAX; lia|].
  split; [lia|].
  apply (X2_every_vertex_is_referenced 4 4 15); unfold Int32.INT_MAX; lia.
Defined.

(** X3: in a grid of at least two rings and two segments that fits, the
    element buffer holds 2*(ringCount-1)*segmentCount triangles and none of
    them is degenerate: the three corners of every triangle are three
    different vertices. *)
Theorem X3_no_degenerate_triangle rowRings colSegments :
  2 <= rowRings -> 2 <= colSegments ->
  rowRings * colSegments * 8 <= Int32.INT_MAX ->
  exists m,
    makeSculpture rowRings colSegments = Returned m /\
    Z.of_nat (length (triangles (indices m))) = 2 * (rowRings - 1) * colSegments /\
    Forall non_degenerate (triangles (indices m)).
Proof.
  intros Hrr Hcs Hfit.
  eexists. split.
  { apply makeSculpture_returns; int_nia. }
  cbn [indices]. rewrite triangles_buildIndices by int_nia. split.
  - rewrite (flat_map_length_const _ (Z.to_nat colSegments * 2)%nat).
    + rewrite zseq_length. nia.
    + intros r _. rewrite (flat_map_length_const _ 2%nat).
      * now rewrite zseq_length.
      * intros c _. reflexivity.
  - apply Forall_forall. intros t Ht.
    apply in_flat_map in Ht. destruct Ht as [r [Hr Ht]].
    apply in_flat_map in Ht. destruct Ht as [c [Hc Ht]].
    apply zseq_In in Hr. apply zseq_In in Hc.
    rewrite (quad_corners rowRings) in Ht by int_nia.
    assert (Hne : (c + 1) mod colSegments <> c).
    { destruct (Z.eq_dec (c + 1) colSegments) as [Heq|Hneq].
      - rewrite Heq, Z_mod_same_full. lia.
      - rewrite Z.mod_small by lia. lia. }
    assert (Hm : 0 <= (c + 1) mod colSegments < colSegments)
      by (apply Z.mod_pos_bound; lia).
    simpl in Ht. destruct Ht as [<-|[<-|[]]]; simpl; nia.
Qed.

Lemma X3_no_degenerate_triangle_witness :
  2 <= 140 /\ 2 <= 180 /\ 140 * 180 * 8 <= Int32.INT_MAX /\
  exists m,
    makeSculpture 140 180 = Returned m /\
    Z.of_nat (length (triangles (indices m))) = 2 * (140 - 1) * 180 /\
    Forall non_degenerate (triangles (indices m)).
Proof.
  split; [lia|]. split; [lia|]. split; [unfold Int32.INT_MAX; lia|].
  apply (X3_no_degenerate_triangle 140 180); unfold Int32.INT_MAX; lia.
Defined.



(** X5: for dimensions whose two capacities rowRings*colSegments*8 and
    (rowRings-1)*colSegments*6 do not overflow, makeSculpture throws
    std::length_error exactly when one of them is negative, that is when
    colSegments > 0 with rowRings <= 0, or colSegments < 0 with
    rowRings >= 1; in every other case with rowRings <= 1 or
    colSegments <= 0 it returns an empty mesh with indexCount 0. *)
Theorem X5_failure_condition rowRings colSegments :
  Int32.INT_MIN <= rowRings * colSegments * 8 <= Int32.INT_MAX ->
  Int32.INT_MIN <= (rowRings - 1) * colSegments * 6 <= Int32.INT_MAX ->
  Int32.INT_MIN < rowRings <= Int32.INT_MAX ->
  Int32.in_range colSegments ->
  (fails (makeSculpture rowRings colSegments) = true <->
   (0 < colSegments /\ rowRings <= 0) \/ (colSegments < 0 /\ 1 <= rowRings)) /\
  (fails (makeSculpture rowRings colSegments) = false ->
   rowRings <= 1 \/ colSegments <= 0 ->
   makeSculpture rowRings colSegments = Returned (mkMesh [] 0)).
Proof.
  intros H8 H6 Hr Hc.
  assert (Hidx : rowRings <= 1 \/ colSegments <= 0 ->
                 buildIndices rowRings colSegments = []).
  { intros Hdeg. rewrite buildIndices_flat_map by int_lia.
    apply flat_map_nil. intros r Hin. apply zseq_In in Hin.
    apply flat_map_nil. intros c Hcin. apply zseq_In in Hcin. lia. }
  unfold makeSculpture, Int32.mul, Int32.sub.
  rewrite (wrap_id (rowRings * colSegments)) by int_nia.
  rewrite (wrap_id (rowRings * colSegments * 8)) by int_nia.
  rewrite (wrap_id (rowRings - 1)) by int_lia.
  rewrite (wrap_id ((rowRings - 1) * colSegments)) by int_nia.
  rewrite (wrap_id ((rowRings - 1) * colSegments * 6)) by int_nia.
  rewrite !reserve_int by int_nia.
  destruct (Z.ltb_spec (rowRings * colSegments * 8) 0) as [Hn8|Hp8].
  - split; [|intros Hf; discriminate Hf].
    split; [intros _; nia|reflexivity].
  - destruct (Z.ltb_spec ((rowRings - 1) * colSegments * 6) 0) as [Hn6|Hp6].
    + split; [|intros Hf; discriminate Hf].
      split; [intros _; nia|reflexivity].
    + cbv zeta. split.
      * split; [intros Hf; discriminate Hf|intros Hneg; exfalso; nia].
      * intros _ Hdeg. rewrite (Hidx Hdeg). reflexivity.
Qed.

Lemma X5_failure_condition_witness :
  Int32.INT_MIN <= 0 * 5 * 8 <= Int32.INT_MAX /\
  Int32.INT_MIN <= (0 - 1) * 5 * 6 <= Int32.INT_MAX /\
  Int32.INT_MIN < 0 <= Int32.INT_MAX /\
  Int32.in_range 5 /\
  (fails (makeSculpture 0 5) = true <->
   (0 < 5 /\ 0 <= 0) \/ (5 < 0 /\ 1 <= 0)) /\
  (fails (makeSculpture 0 5) = false ->
   0 <= 1 \/ 5 <= 0 ->
   makeSculpture 0 5 = Returned (mkMesh [] 0)).
Proof.
  split; [unfold Int32.INT_MIN, Int32.INT_MAX; lia|].
  split; [unfold Int32.INT_MIN, Int32.INT_MAX; lia|].
  split; [unfold Int32.INT_MIN, Int32.INT_MAX; lia|].
  split; [unfold Int32.in_range, Int32.INT_MIN, Int32.INT_MAX; lia|].
  apply (X5_failure_condition 0 5);
    unfold Int32.in_range, Int32.INT_MIN, Int32.INT_MAX; lia.
Defined.

(** X6: toIndex accepts one turn to the left and no more.  For a column c
    with -colSegments <= c, it designates column c mod colSegments of ring
    r (column -1 is column colSegments-1); for c < -colSegments not a
    multiple of colSegments the remainder of the truncating division is
    negative and the result lies colSegments slots too low, in the ring
    before. *)
Theorem X6_toIndex_left_wrap colSegments r c :
  0 < colSegments -> Int32.in_range c -> c + colSegments <= Int32.INT_MAX ->
  (- colSegments <= c ->
   toIndex colSegments r c =
   Int32.add (Int32.mul r colSegments) (c mod colSegments)) /\
  (c < - colSegments -> c mod colSegments <> 0 ->
   toIndex colSegments r c =
   Int32.add (Int32.mul r colSegments) (c mod colSegments - colSegments)).
Proof.
  intros Hcs Hc Hsum.
  assert (Hadd : Int32.add c colSegments = c + colSegments).
  { unfold Int32.add. apply wrap_id. int_lia. }
  unfold toIndex, Int32.rem. cbv zeta. rewrite Hadd.
  split.
  - intros Hge. rewrite Z.rem_mod_nonneg by lia.
    replace (c + colSegments) with (c + 1 * colSegments) by ring.
    now rewrite Z_mod_plus_full.
  - intros Hlt Hnz.
    assert (Hmod : (c + colSegments) mod colSegments = c mod colSegments).
    { replace (c + colSegments) with (c + 1 * colSegments) by ring.
      apply Z_mod_plus_full. }
    rewrite <- (Z.opp_involutive (c + colSegments)) at 1.
    rewrite Z.rem_opp_l by lia.
    rewrite Z.rem_mod_nonneg by lia.
    rewrite Z.mod_opp_l_nz by (rewrite ?Hmod; lia).
    rewrite Hmod. f_equal. lia.
Qed.

Lemma X6_toIndex_left_wrap_witness :
  0 < 180 /\ Int32.in_range (-1) /\ -1 + 180 <= Int32.INT_MAX /\
  toIndex 180 7 (-1) = Int32.add (Int32.mul 7 180) ((-1) mod 180) /\
  toIndex 180 7 (-181) = Int32.add (Int32.mul 7 180) ((-181) mod 180 - 180).
Proof.
  split; [lia|].
  split; [unfold Int32.in_range, Int32.INT_MIN, Int32.INT_MAX; lia|].
  split; [unfold Int32.INT_MAX; lia|].
  split.
  - apply (X6_toIndex_left_wrap 180 7 (-1));
      unfold Int32.in_range, Int32.INT_MIN, Int32.INT_MAX; lia.
  - apply (X6_toIndex_left_wrap 180 7 (-181));
      unfold Int32.in_range, Int32.INT_MIN, Int32.INT_MAX;
      try lia; vm_compute; discriminate.
Defined.

End TopologyExtras.

(** * Further properties of the sampled surface *)

Section SurfaceExtras.

Import Loops Topology Ideal.

Local Open Scope R_scope.

(** X7: the vertex buffer is laid out the way toIndex counts.  In a grid
    that fits it holds ringCount*segmentCount vertices, and for a ring r
    and a column c in 0..segmentCount the index toIndex(r, c) designates
    the sample of ring r and segment c mod segmentCount. *)
Lemma toIndex_designates_sample rowRings colSegments g_time r c :
  (1 <= rowRings)%Z -> (1 <= colSegments)%Z ->
  (rowRings * colSegments * 8 <= Int32.INT_MAX)%Z ->
  (0 <= r < rowRings)%Z -> (0 <= c <= colSegments)%Z ->
  nth_error (makeVertices rowRings colSegments g_time)
            (Z.to_nat (Int32.to_unsigned (toIndex colSegments r c))) =
  Some (sampleVertex rowRings colSegments g_time r (c mod colSegments)).
Proof.
  intros Hrr Hcs Hfit Hr Hc.
  assert (Hrc : ((r + 1) * colSegments <= rowRings * colSegments)%Z) by nia.
  assert (Hm : (0 <= c mod colSegments < colSegments)%Z)
    by (apply Z.mod_pos_bound; lia).
  rewrite toIndex_small by int_nia.
  rewrite to_unsigned_id by int_nia.
  rewrite makeVertices_flat_map by int_nia.
  replace (Z.to_nat (r * colSegments + c mod colSegments))
    with (Z.to_nat r * Z.to_nat colSegments + Z.to_nat (c mod colSegments))%nat
    by nia.
  rewrite (flat_map_nth_error _ (Z.to_nat colSegments) _ _ _ r).
  - rewrite nth_error_map, zseq_nth_error by lia.
    simpl. do 2 f_equal. lia.
  - intros y _. now rewrite length_map, zseq_length.
  - rewrite zseq_nth_error by lia. f_equal. lia.
  - lia.
Qed.

Theorem X7_index_designates_sample rowRings colSegments g_time r c :
  (1 <= rowRings)%Z -> (1 <= colSegments)%Z ->
  (rowRings * colSegments * 8 <= Int32.INT_MAX)%Z ->
  (0 <= r < rowRings)%Z -> (0 <= c <= colSegments)%Z ->
  Z.of_nat (List.length (makeVertices rowRings colSegments g_time)) =
    (rowRings * colSegments)%Z /\
  nth_error (makeVertices rowRings colSegments g_time)
            (Z.to_nat (Int32.to_unsigned (toIndex colSegments r c))) =
  Some (sampleVertex rowRings colSegments g_time r (c mod colSegments)).
Proof.
  intros Hrr Hcs Hfit Hr Hc. split.
  - apply makeVertices_length; int_nia.
  - now apply toIndex_designates_sample.
Qed.

Lemma X7_index_designates_sample_witness :
  (1 <= 4)%Z /\ (1 <= 4)%Z /\ (4 * 4 * 8 <= Int32.INT_MAX)%Z /\
  (0 <= 2 < 4)%Z /\ (0 <= 4 <= 4)%Z /\
  Z.of_nat (List.length (makeVertices 4 4 0)) = (4 * 4)%Z /\
  nth_error (makeVertices 4 4 0)
            (Z.to_nat (Int32.to_unsigned (toIndex 4 2 4))) =
  Some (sampleVertex 4 4 0 2 (4 mod 4)).
Proof.
  split; [lia|]. split; [lia|]. split; [unfold Int32.INT_MAX; lia|].
  split; [lia|]. split; [lia|].
  apply (X7_index_designates_sample 4 4 0 2 4); unfold Int32.INT_MAX; lia.
Defined.

End SurfaceExtras.

(** * Facts about the camera and the model transform *)

(** Decimal constants as quotients of integers, for [field]. *)
Ltac decimals := unfold Q2R in *; cbn [QArith_base.Qnum QArith_base.Qden] in *.

Section SceneFacts.

Import Ideal Scene.

Local Open Scope R_scope.

Lemma sqrt_5125 : 0 < sqrt 51.25 /\ sqrt 51.25 * sqrt 51.25 = 51.25.
Proof.
  split; [apply sqrt_lt_R0; lra|apply sqrt_sqrt; lra].
Qed.

(** Whatever the target and the up vector, the eye goes to the origin. *)
Lemma lookAt_eye_to_origin eye center up :
  transform (lookAt eye center up) (point eye) = mkVec4 0 0 0 1.
Proof.
  unfold transform, lookAt, point, vadd4, vscale4, dot. simpl.
  f_equal; ring.
Qed.

(** The view matrix in closed form. *)
Lemma makeView_eq g_time :
  let ex := sin (g_time * 0.3) * 6.5 in
  let ez := cos (g_time * 0.3) * 6.5 in
  let n := sqrt 51.25 in
  makeView g_time =
  mkMat4 (mkVec4 (ez / 6.5) (- 3 * ex / (6.5 * n)) (ex / n) 0)
         (mkVec4 0 (6.5 / n) (3 / n) 0)
         (mkVec4 (- ex / 6.5) (- 3 * ez / (6.5 * n)) (ez / n) 0)
         (mkVec4 0 0 (- n) 1).
Proof.
  intros ex ez n.
  destruct sqrt_5125 as [Hn Hnn]. fold n in Hn, Hnn.
  assert (Hh : ex * ex + ez * ez = 42.25).
  { subst ex ez. pose proof (sin_cos_sq (g_time * 0.3)) as H. nra. }
  unfold makeView, lookAt, cameraPosition. cbv zeta. fold ex. fold ez.
  clearbody ex ez.
  assert (Hf : normalize (sub3 (mkVec3 0 0 0) (mkVec3 ex 3.0 ez)) =
               mkVec3 (- ex / n) (- 3 / n) (- ez / n)).
  { unfold normalize, inversesqrt, sub3, dot, scale.
    cbn [vx vy vz].
    replace ((0 - ex) * (0 - ex) + (0 - 3.0) * (0 - 3.0) + (0 - ez) * (0 - ez))
      with 51.25 by nra.
    fold n. clearbody n. decimals. f_equal; field; lra. }
  rewrite Hf.
  assert (Hs : normalize (cross (mkVec3 (- ex / n) (- 3 / n) (- ez / n)) (mkVec3 0 1 0)) =
               mkVec3 (ez / 6.5) 0 (- ex / 6.5)).
  { unfold normalize, inversesqrt, cross, dot, scale. cbn [vx vy vz].
    replace ((- 3 / n * 0 - 1 * (- ez / n)) * (- 3 / n * 0 - 1 * (- ez / n)) +
             (- ez / n * 0 - 0 * (- ex / n)) * (- ez / n * 0 - 0 * (- ex / n)) +
             (- ex / n * 1 - 0 * (- 3 / n)) * (- ex / n * 1 - 0 * (- 3 / n)))
      with ((6.5 / n) * (6.5 / n)).
    2:{ replace (6.5 / n * (6.5 / n)) with (42.25 / (n * n))
          by (clearbody n; decimals; field; lra).
        rewrite <- Hh. clearbody n. field. lra. }
    rewrite sqrt_square by (apply Rlt_le, Rdiv_lt_0_compat; lra).
    clearbody n. decimals. f_equal; field; lra. }
  rewrite Hs.
  unfold cross, dot. cbn [vx vy vz].
  assert (Hy : ex * ex + ez * ez = 6.5 * 6.5) by lra.
  assert (Hd : ex * ex + 9 + ez * ez = n * n) by lra.
  clear Hh Hnn Hf Hs. clearbody n. decimals.
  f_equal; f_equal; try (field; lra).
  - replace (- ex / (65 * / 10) * (- ex / n) - - ez / n * (ez / (65 * / 10)))
      with ((ex * ex + ez * ez) / (65 * / 10 * n)) by (field; lra).
    rewrite Hy. field. lra.
  - replace (- ex / n * ex + -3 / n * (30 * / 10) + - ez / n * ez)
      with (- (ex * ex + 9 + ez * ez) / n) by (field; lra).
    rewrite Hd. field. lra.
Qed.

Lemma transform_mat_mul a b v :
  transform (mat_mul a b) v = transform a (transform b v).
Proof.
  unfold mat_mul, transform, vadd4, vscale4. simpl. f_equal; ring.
Qed.

Lemma transform_identity v : transform identity v = v.
Proof.
  destruct v. unfold transform, identity, vadd4, vscale4. simpl. f_equal; ring.
Qed.

Lemma col3_transform m : col3 m = transform m (mkVec4 0 0 0 1).
Proof.
  destruct m as [c0 c1 c2 [x y z w]].
  unfold transform, vadd4, vscale4. simpl. f_equal; ring.
Qed.

Lemma cameraFrame_left_inverse g_time :
  mat_mul (cameraFrame g_time) (makeView g_time) = identity.
Proof.
  rewrite makeView_eq. unfold cameraFrame. cbv zeta.
  destruct sqrt_5125 as [Hn Hnn].
  set (n := sqrt 51.25) in *.
  set (ex := sin (g_time * 0.3) * 6.5).
  set (ez := cos (g_time * 0.3) * 6.5).
  assert (Hh : ex * ex + ez * ez = 6.5 * 6.5).
  { subst ex ez. pose proof (sin_cos_sq (g_time * 0.3)) as H. nra. }
  assert (Hd : n * n = ex * ex + 9 + ez * ez) by lra.
  clearbody ex ez. clear Hnn. clearbody n.
  unfold mat_mul, transform, identity, vadd4, vscale4.
  cbn [col0 col1 col2 col3 wx wy wz ww].
  decimals.
  f_equal; f_equal; try (field; lra).
  all: assert (Hn2 : n * n = 5125 / 100) by lra.
  all: assert (Hm : ex * ez * (n * n) = ex * ez * (5125 / 100))
         by (rewrite Hn2; ring).
  all: field_simplify_eq; [|lra]; nra.
Qed.

Lemma sqrt_5125_range : 7.15 < sqrt 51.25 < 7.16.
Proof.
  destruct sqrt_5125 as [Hn Hnn]. split; nra.
Qed.

(** A point within [B] of the origin is seen at a depth within [B] of the
    distance of the camera. *)
Lemma view_depth_bound g_time q B :
  0 <= B -> dot q q <= B * B ->
  let z := wz (transform (makeView g_time) (point q)) in
  - sqrt 51.25 - B <= z <= - sqrt 51.25 + B.
Proof.
  intros HB Hq z. subst z. rewrite makeView_eq.
  destruct sqrt_5125 as [Hn Hnn].
  set (n := sqrt 51.25) in *.
  set (ex := sin (g_time * 0.3) * 6.5).
  set (ez := cos (g_time * 0.3) * 6.5).
  assert (Hh : ex * ex + 9 + ez * ez = n * n).
  { subst ex ez. pose proof (sin_cos_sq (g_time * 0.3)) as H. nra. }
  clearbody ex ez. clearbody n.
  destruct q as [qx qy qz]. unfold dot in Hq. cbn [vx vy vz] in Hq.
  unfold transform, point, vadd4, vscale4.
  cbn [col0 col1 col2 col3 wx wy wz ww vx vy vz].
  set (d := ex * qx + 3 * qy + ez * qz).
  assert (Hz : ex / n * qx + 3 / n * qy + (ez / n * qz + - n * 1) = d / n - n).
  { subst d. field. lra. }
  rewrite Hz.
  assert (Hcs : d * d <= (n * n) * (B * B)).
  { assert (Hlag : (ex * ex + 9 + ez * ez) * (qx * qx + qy * qy + qz * qz) - d * d =
                   (ex * qy - 3 * qx) * (ex * qy - 3 * qx) +
                   (ex * qz - ez * qx) * (ex * qz - ez * qx) +
                   (3 * qz - ez * qy) * (3 * qz - ez * qy)) by (subst d; ring).
    assert (HA : 0 <= ex * ex + 9 + ez * ez) by nra.
    pose proof (Rmult_le_compat_l _ _ _ HA Hq) as Hmul.
    rewrite <- Hh.
    pose proof (Rle_0_sqr (ex * qy - 3 * qx)) as S1.
    pose proof (Rle_0_sqr (ex * qz - ez * qx)) as S2.
    pose proof (Rle_0_sqr (3 * qz - ez * qy)) as S3.
    unfold Rsqr in S1, S2, S3. lra. }
  assert (Hdn : d / n * (d / n) <= B * B).
  { replace (d / n * (d / n)) with (d * d / (n * n)) by (field; lra).
    apply (Rmult_le_reg_r (n * n)); [nra|].
    replace (d * d / (n * n) * (n * n)) with (d * d) by (field; lra). nra. }
  split; nra.
Qed.

(** The model matrix in closed form: a rotation about the y axis. *)
Lemma modelMatrix_eq g_time :
  modelMatrix g_time =
  mkMat4 (mkVec4 (cos (g_time * 0.25)) 0 (- sin (g_time * 0.25)) 0)
         (mkVec4 0 1 0 0)
         (mkVec4 (sin (g_time * 0.25)) 0 (cos (g_time * 0.25)) 0)
         (mkVec4 0 0 0 1).
Proof.
  unfold modelMatrix, rotate, normalize, inversesqrt, scale, dot, identity,
    vadd4, vscale4. cbn [vx vy vz col0 col1 col2 col3 wx wy wz ww].
  replace (0 * 0 + 1 * 1 + 0 * 0) with 1 by ring.
  rewrite sqrt_1.
  f_equal; f_equal; field.
Qed.

End SceneFacts.

(** * Bounds of the surface *)

Section RadiusFacts.

Import Ideal.

Local Open Scope R_scope.

(** On [0, 1] a power with an exponent in (0, 1] lies between the base
    and 1. *)
Lemma powf_unit_interval x y :
  0 <= x <= 1 -> 0 < y <= 1 -> x <= powf x y <= 1.
Proof.
  intros [Hx0 Hx1] [Hy0 Hy1]. unfold powf.
  destruct (Req_dec_T x 0) as [->|Hne]; [lra|].
  assert (Hx : 0 < x) by lra.
  assert (Hln : ln x <= 0).
  { destruct (Req_dec_T x 1) as [->|Hn1]; [rewrite ln_1; lra|].
    left. rewrite <- ln_1. apply ln_increasing; lra. }
  unfold Rpower. split.
  - rewrite <- (exp_ln x Hx) at 1.
    destruct (Req_dec_T (ln x) (y * ln x)) as [<-|Hd]; [lra|].
    left. apply exp_increasing. nra.
  - rewrite <- exp_0.
    destruct (Req_dec_T (y * ln x) 0) as [->|Hd]; [lra|].
    left. apply exp_increasing. nra.
Qed.

Lemma r0_sq_bounds th : 0.25 <= r0 th * r0 th <= 1.25.
Proof.
  unfold r0. cbv zeta.
  set (p := powf (Rabs (cos th)) (2 / 2.5)).
  set (q := powf (Rabs (sin th)) (2 / 2.5)).
  pose proof (sign_of_sq (cos th)) as Hsc.
  pose proof (sign_of_sq (sin th)) as Hss.
  pose proof (COS_bound th) as Hcb. pose proof (SIN_bound th) as Hsb.
  pose proof (Rabs_pos (cos th)) as Hac. pose proof (Rabs_pos (sin th)) as Has.
  assert (Hac1 : Rabs (cos th) <= 1) by (apply Rabs_le; lra).
  assert (Has1 : Rabs (sin th) <= 1) by (apply Rabs_le; lra).
  assert (Hp : Rabs (cos th) <= p <= 1) by (apply powf_unit_interval; lra).
  assert (Hq : Rabs (sin th) <= q <= 1) by (apply powf_unit_interval; lra).
  assert (Hsq : Rabs (cos th) * Rabs (cos th) + Rabs (sin th) * Rabs (sin th) = 1).
  { pose proof (sin_cos_sq th) as H.
    replace (Rabs (cos th) * Rabs (cos th)) with (cos th * cos th)
      by (unfold Rabs; destruct (Rcase_abs (cos th)); ring).
    replace (Rabs (sin th) * Rabs (sin th)) with (sin th * sin th)
      by (unfold Rabs; destruct (Rcase_abs (sin th)); ring).
    lra. }
  assert (Hin : p * 1.0 * sign_of (cos th) * (p * 1.0 * sign_of (cos th)) +
                q * 0.5 * sign_of (sin th) * (q * 0.5 * sign_of (sin th))
                = p * p + 0.25 * (q * q)).
  { replace (p * 1.0 * sign_of (cos th) * (p * 1.0 * sign_of (cos th)))
      with (p * p * (sign_of (cos th) * sign_of (cos th))) by nra.
    replace (q * 0.5 * sign_of (sin th) * (q * 0.5 * sign_of (sin th)))
      with (0.25 * (q * q) * (sign_of (sin th) * sign_of (sin th))) by nra.
    rewrite Hsc, Hss. lra. }
  rewrite Hin. rewrite sqrt_sqrt by nra.
  split; nra.
Qed.

Lemma r0_bounds th : 0.5 <= r0 th <= 1.12.
Proof.
  pose proof (r0_sq_bounds th) as H. pose proof (r0_pos th) as Hp. split; nra.
Qed.

Lemma radius_bounds rowRings colSegments g_time r c :
  0.375 <= radius rowRings colSegments g_time r c <= 1.4.
Proof.
  unfold radius.
  pose proof (r0_bounds (theta colSegments c)) as H0.
  pose proof (wave_bound g_time (uParam colSegments c) (vParam rowRings r)) as Hw.
  split; nra.
Qed.

End RadiusFacts.

(** * The normal never meets a radius of zero *)

Section ZeroRadiusClaim.

Import Ideal.
Local Open Scope R_scope.



End ZeroRadiusClaim.

(** * Further properties of the surface, the lights and the camera *)

Section SceneExtras.

Import Loops Topology Ideal Scene.

Local Open Scope R_scope.

Lemma axisDistance2_sample rowRings colSegments g_time r c :
  axisDistance2 (pos (sampleVertex rowRings colSegments g_time r c)) =
  radius rowRings colSegments g_time r c * radius rowRings colSegments g_time r c.
Proof.
  unfold axisDistance2, sampleVertex. cbv zeta. cbn [pos vx vz].
  pose proof (sin_cos_sq (theta colSegments c)) as H. nra.
Qed.

Lemma sample_in_shell rowRings colSegments g_time r c :
  (2 <= rowRings <= Int32.INT_MAX)%Z -> (0 <= r < rowRings)%Z ->
  let p := pos (sampleVertex rowRings colSegments g_time r c) in
  -1.5 <= vy p <= 1.5 /\
  0.375 <= sqrt (axisDistance2 p) <= 1.4 /\
  sqrt (axisDistance2 p) = radius rowRings colSegments g_time r c.
Proof.
  intros Hrr Hr p.
  pose proof (radius_bounds rowRings colSegments g_time r c) as Hrad.
  assert (Hd : sqrt (axisDistance2 p) = radius rowRings colSegments g_time r c).
  { subst p. rewrite axisDistance2_sample. apply sqrt_square. lra. }
  split; [|split].
  - subst p. unfold sampleVertex. cbv zeta. cbn [pos vy]. unfold height.
    pose proof (vParam_range rowRings r Hrr Hr) as Hv. lra.
  - rewrite Hd. exact Hrad.
  - exact Hd.
Qed.

Lemma model_is_rigid g_time p :
  let q := transform (modelMatrix g_time) (point p) in
  ww q = 1 /\ vy (xyz q) = vy p /\
  axisDistance2 (xyz q) = axisDistance2 p /\
  dot (xyz q) (xyz q) = dot p p.
Proof.
  intros q. subst q. rewrite modelMatrix_eq.
  unfold transform, point, xyz, vadd4, vscale4, axisDistance2, dot.
  cbn [col0 col1 col2 col3 wx wy wz ww vx vy vz].
  pose proof (sin_cos_sq (g_time * 0.25)) as H.
  split; [ring|]. split; [ring|]. split; nra.
Qed.

Lemma model_keeps_axis_distance g_time p :
  let q := xyz (transform (modelMatrix g_time) (point p)) in
  vy q = vy p /\ axisDistance2 q = axisDistance2 p.
Proof.
  intros q. subst q. rewrite modelMatrix_eq.
  unfold transform, point, xyz, vadd4, vscale4, axisDistance2.
  cbn [col0 col1 col2 col3 wx wy wz ww vx vy vz].
  pose proof (sin_cos_sq (g_time * 0.25)) as H.
  split; [ring|nra].
Qed.

(** X8: every vertex of a grid of at least two rings lies in a fixed
    shell around the vertical axis, whatever the time: its height is
    between -1.5 and 1.5 and its distance to the axis, which is the radius
    of the sample, is between 0.375 and 1.4. *)
Theorem X8_surface_bounds rowRings colSegments g_time r c :
  (2 <= rowRings <= Int32.INT_MAX)%Z -> (colSegments <= Int32.INT_MAX)%Z ->
  (0 <= r < rowRings)%Z -> (0 <= c < colSegments)%Z ->
  let vtx := sampleVertex rowRings colSegments g_time r c in
  In vtx (makeVertices rowRings colSegments g_time) /\
  -1.5 <= vy (pos vtx) <= 1.5 /\
  0.375 <= sqrt (axisDistance2 (pos vtx)) <= 1.4 /\
  sqrt (axisDistance2 (pos vtx)) = radius rowRings colSegments g_time r c.
Proof.
  intros Hrr Hcs Hr Hc vtx.
  pose proof (radius_bounds rowRings colSegments g_time r c) as Hrad.
  assert (Hd : sqrt (axisDistance2 (pos vtx)) =
               radius rowRings colSegments g_time r c).
  { subst vtx. rewrite axisDistance2_sample. apply sqrt_square. lra. }
  split; [|split; [|split]].
  - apply makeVertices_In; [lia|exact Hcs|]. now exists r, c.
  - subst vtx. unfold sampleVertex. cbv zeta. cbn [pos vy]. unfold height.
    pose proof (vParam_range rowRings r Hrr Hr) as Hv. lra.
  - rewrite Hd. exact Hrad.
  - exact Hd.
Qed.

Lemma X8_surface_bounds_witness :
  (2 <= 140 <= Int32.INT_MAX)%Z /\ (180 <= Int32.INT_MAX)%Z /\
  (0 <= 70 < 140)%Z /\ (0 <= 45 < 180)%Z /\
  let vtx := sampleVertex 140 180 2 70 45 in
  In vtx (makeVertices 140 180 2) /\
  -1.5 <= vy (pos vtx) <= 1.5 /\
  0.375 <= sqrt (axisDistance2 (pos vtx)) <= 1.4 /\
  sqrt (axisDistance2 (pos vtx)) = radius 140 180 2 70 45.
Proof.
  split; [unfold Int32.INT_MAX; lia|]. split; [unfold Int32.INT_MAX; lia|].
  split; [lia|]. split; [lia|].
  apply (X8_surface_bounds 140 180 2 70 45); unfold Int32.INT_MAX; lia.
Defined.

(** X9: the rings are evenly spaced in height.  In a grid of at least two
    rings all the vertices of ring r have the height -1.5 + 3*r/(ringCount-1):
    ring 0 lies at -1.5, the last ring at 1.5, and each ring lies
    3/(ringCount-1) above the one before, whatever the segments. *)
Theorem X9_ring_heights rowRings colSegments g_time r c c' :
  (2 <= rowRings <= Int32.INT_MAX)%Z -> (0 <= r < rowRings - 1)%Z ->
  let y := fun r c => vy (pos (sampleVertex rowRings colSegments g_time r c)) in
  y r c = -1.5 + 3 * IZR r / IZR (rowRings - 1) /\
  y 0%Z c = -1.5 /\
  y (rowRings - 1)%Z c = 1.5 /\
  y (r + 1)%Z c' - y r c = 3 / IZR (rowRings - 1) /\
  y r c < y (r + 1)%Z c'.
Proof.
  intros Hrr _ y.
  assert (Hd : 0 < IZR (rowRings - 1)) by (apply IZR_lt; lia).
  assert (Hy : forall r0 c0, y r0 c0 = -1.5 + 3 * IZR r0 / IZR (rowRings - 1)).
  { intros r0 c0. subst y. unfold sampleVertex. cbv zeta. cbn [pos vy].
    unfold height. rewrite vParam_eq by exact Hrr. decimals. field. lra. }
  assert (Hstep : 0 < 3 / IZR (rowRings - 1))
    by (apply Rdiv_lt_0_compat; lra).
  rewrite !Hy. rewrite plus_IZR.
  split; [reflexivity|]. split; [|split; [|split]].
  - decimals. field. lra.
  - decimals. field. lra.
  - decimals. field. lra.
  - assert (He : -1.5 + 3 * (IZR r + 1) / IZR (rowRings - 1) =
                 -1.5 + 3 * IZR r / IZR (rowRings - 1) + 3 / IZR (rowRings - 1))
      by (decimals; field; lra).
    rewrite He. lra.
Qed.

Lemma X9_ring_heights_witness :
  (2 <= 4 <= Int32.INT_MAX)%Z /\ (0 <= 1 < 4 - 1)%Z /\
  let y := fun r c => vy (pos (sampleVertex 4 4 0 r c)) in
  y 1%Z 0%Z = -1.5 + 3 * IZR 1 / IZR (4 - 1) /\
  y 0%Z 0%Z = -1.5 /\
  y (4 - 1)%Z 0%Z = 1.5 /\
  y (1 + 1)%Z 3%Z - y 1%Z 0%Z = 3 / IZR (4 - 1) /\
  y 1%Z 0%Z < y (1 + 1)%Z 3%Z.
Proof.
  split; [unfold Int32.INT_MAX; lia|]. split; [lia|].
  apply (X9_ring_heights 4 4 0 1 0 3); unfold Int32.INT_MAX; lia.
Defined.

(** One more turn around the axis: the sampler gives column
    c + segmentCount the position and the normal of column c. *)
Lemma sample_one_turn rowRings colSegments g_time r c :
  (1 <= colSegments)%Z ->
  let a := sampleVertex rowRings colSegments g_time r (c + colSegments) in
  let b := sampleVertex rowRings colSegments g_time r c in
  pos a = pos b /\ nrm a = nrm b /\ tex_v a = tex_v b /\ tex_u a = tex_u b + 1.
Proof.
  intros Hcs a b.
  assert (Hd : 0 < IZR colSegments) by (apply IZR_lt; lia).
  assert (Hu : uParam colSegments (c + colSegments) = uParam colSegments c + 1).
  { unfold uParam. rewrite plus_IZR. field. lra. }
  assert (Hth : theta colSegments (c + colSegments) =
                theta colSegments c + 2 * INR 1 * PI).
  { unfold theta, two_pi. rewrite Hu. simpl. ring. }
  assert (Hcos : cos (theta colSegments (c + colSegments)) = cos (theta colSegments c))
    by (rewrite Hth; apply cos_period).
  assert (Hsin : sin (theta colSegments (c + colSegments)) = sin (theta colSegments c))
    by (rewrite Hth; apply sin_period).
  assert (Hr0 : r0 (theta colSegments (c + colSegments)) = r0 (theta colSegments c)).
  { unfold r0. cbv zeta. now rewrite Hcos, Hsin. }
  assert (Hw : forall v, wave g_time (uParam colSegments (c + colSegments)) v =
                         wave g_time (uParam colSegments c) v).
  { intros v. unfold wave. rewrite Hu. f_equal.
    replace (6.0 * (uParam colSegments c + 1) * two_pi - 4.0 * v * two_pi
             + g_time * 1.5)
      with (6.0 * uParam colSegments c * two_pi - 4.0 * v * two_pi
            + g_time * 1.5 + 2 * INR 6 * PI)
      by (unfold two_pi; simpl; lra).
    apply sin_period. }
  assert (Hrad : radius rowRings colSegments g_time r (c + colSegments) =
                 radius rowRings colSegments g_time r c).
  { unfold radius. now rewrite Hr0, Hw. }
  subst a b. unfold sampleVertex. cbv zeta. cbn [pos nrm tex_u tex_v].
  rewrite Hrad, Hcos, Hsin.
  split; [reflexivity|]. split; [|split; [reflexivity|exact Hu]].
  unfold normalAt. cbv zeta. now rewrite Hcos, Hsin.
Qed.

(** X10: the wrap of toIndex closes the surface but not the texture.  The
    vertex that the seam quads take for column segmentCount, the vertex
    of column 0, has the very position and normal that the sampler gives
    column segmentCount; its texture coordinate u, however, is 0 where
    column segmentCount would have 1. *)
Theorem X10_seam_closes_surface rowRings colSegments g_time r :
  (1 <= rowRings)%Z -> (1 <= colSegments)%Z ->
  (rowRings * colSegments * 8 <= Int32.INT_MAX)%Z ->
  (0 <= r < rowRings)%Z ->
  exists v,
    nth_error (makeVertices rowRings colSegments g_time)
              (Z.to_nat (Int32.to_unsigned (toIndex colSegments r colSegments))) =
      Some v /\
    pos v = pos (sampleVertex rowRings colSegments g_time r colSegments) /\
    nrm v = nrm (sampleVertex rowRings colSegments g_time r colSegments) /\
    tex_v v = tex_v (sampleVertex rowRings colSegments g_time r colSegments) /\
    tex_u v = 0 /\
    tex_u (sampleVertex rowRings colSegments g_time r colSegments) = 1.
Proof.
  intros Hrr Hcs Hfit Hr.
  exists (sampleVertex rowRings colSegments g_time r 0).
  destruct (sample_one_turn rowRings colSegments g_time r 0 Hcs)
    as [Hp [Hn [Hv Hu]]].
  rewrite Z.add_0_l in Hp, Hn, Hv, Hu.
  assert (Hd : 0 < IZR colSegments) by (apply IZR_lt; lia).
  assert (Hu0 : tex_u (sampleVertex rowRings colSegments g_time r 0) = 0).
  { unfold sampleVertex. cbv zeta. cbn [tex_u]. unfold uParam. field. lra. }
  split; [|split; [|split; [|split; [|split]]]]; auto.
  - replace (sampleVertex rowRings colSegments g_time r 0)
      with (sampleVertex rowRings colSegments g_time r (colSegments mod colSegments))
      by (now rewrite Z_mod_same_full).
    apply (toIndex_designates_sample rowRings colSegments g_time r colSegments);
      try assumption; lia.
  - rewrite Hu, Hu0. ring.
Qed.

Lemma X10_seam_closes_surface_witness :
  (1 <= 4)%Z /\ (1 <= 4)%Z /\ (4 * 4 * 8 <= Int32.INT_MAX)%Z /\
  (0 <= 2 < 4)%Z /\
  exists v,
    nth_error (makeVertices 4 4 0)
              (Z.to_nat (Int32.to_unsigned (toIndex 4 2 4))) = Some v /\
    pos v = pos (sampleVertex 4 4 0 2 4) /\
    nrm v = nrm (sampleVertex 4 4 0 2 4) /\
    tex_v v = tex_v (sampleVertex 4 4 0 2 4) /\
    tex_u v = 0 /\
    tex_u (sampleVertex 4 4 0 2 4) = 1.
Proof.
  split; [lia|]. split; [lia|]. split; [unfold Int32.INT_MAX; lia|].
  split; [lia|].
  apply (X10_seam_closes_surface 4 4 0 2); unfold Int32.INT_MAX; lia.
Defined.

(** X11: the animation loop overwrites all three coordinates of all four
    lights.  What the array held before, the initial positions included,
    has no influence on the result, and running the loop again at the same
    time changes nothing. *)
Theorem X11_lights_overwritten g_time g_time' lights lights' :
  List.length lights = 4%nat -> List.length lights' = 4%nat ->
  animateLights g_time lights = animateLights g_time lights' /\
  animateLights g_time (animateLights g_time' lights) =
    animateLights g_time lights /\
  List.length (animateLights g_time lights) = 4%nat.
Proof.
  intros Hl Hl'.
  destruct (length_four lights Hl) as [a [b [c [d ->]]]].
  destruct (length_four lights' Hl') as [a' [b' [c' [d' ->]]]].
  rewrite (animateLights_four g_time' a b c d).
  cbn [map]. rewrite !animateLights_four.
  repeat split; reflexivity.
Qed.

Lemma X11_lights_overwritten_witness :
  List.length pointLights_init = 4%nat /\
  List.length [mkVec3 0 0 0; mkVec3 0 0 0; mkVec3 0 0 0; mkVec3 0 0 0] = 4%nat /\
  animateLights 2 pointLights_init =
    animateLights 2 [mkVec3 0 0 0; mkVec3 0 0 0; mkVec3 0 0 0; mkVec3 0 0 0] /\
  animateLights 2 (animateLights 1 pointLights_init) =
    animateLights 2 pointLights_init /\
  List.length (animateLights 2 pointLights_init) = 4%nat.
Proof.
  split; [reflexivity|]. split; [reflexivity|].
  apply (X11_lights_overwritten 2 1 pointLights_init
           [mkVec3 0 0 0; mkVec3 0 0 0; mkVec3 0 0 0; mkVec3 0 0 0]);
    reflexivity.
Defined.

Lemma orbitAngle_next g_time i :
  orbitAngle g_time (i + 1) = orbitAngle g_time i + PI / 2.
Proof. unfold orbitAngle, phase, half_pi. rewrite plus_IZR. lra. Qed.

Lemma sin_quarter x : sin (x + PI / 2) = cos x.
Proof. rewrite sin_plus, sin_PI2, cos_PI2. ring. Qed.

Lemma cos_quarter x : cos (x + PI / 2) = - sin x.
Proof. rewrite cos_plus, sin_PI2, cos_PI2. ring. Qed.

(** X12: the four lights stand at the corners of a horizontal square
    centred on the axis.  Seen from above, each light is the one before
    turned by a quarter turn (x' = z, z' = -x), lights i and i+2 are
    opposite each other, and the x and the z of the four lights both sum
    to 0. *)
Theorem X12_lights_on_a_square g_time lights i :
  List.length lights = 4%nat -> (0 <= i < 3)%Z ->
  let p := light (animateLights g_time lights) in
  (vx (p (i + 1)%Z) = vz (p i) /\ vz (p (i + 1)%Z) = - vx (p i)) /\
  (vx (p 2%Z) = - vx (p 0%Z) /\ vz (p 2%Z) = - vz (p 0%Z)) /\
  (vx (p 3%Z) = - vx (p 1%Z) /\ vz (p 3%Z) = - vz (p 1%Z)) /\
  vx (p 0%Z) + vx (p 1%Z) + vx (p 2%Z) + vx (p 3%Z) = 0 /\
  vz (p 0%Z) + vz (p 1%Z) + vz (p 2%Z) + vz (p 3%Z) = 0.
Proof.
  intros Hlen Hi p.
  assert (Hstep : forall j, (0 <= j < 3)%Z ->
            vx (p (j + 1)%Z) = vz (p j) /\ vz (p (j + 1)%Z) = - vx (p j)).
  { intros j Hj. subst p. cbv beta.
    rewrite !light_animated by (assumption || lia).
    cbn [vx vz]. rewrite orbitAngle_next, sin_quarter, cos_quarter.
    split; ring. }
  destruct (Hstep 0%Z ltac:(lia)) as [Hx1 Hz1].
  destruct (Hstep 1%Z ltac:(lia)) as [Hx2 Hz2].
  destruct (Hstep 2%Z ltac:(lia)) as [Hx3 Hz3].
  change (0 + 1)%Z with 1%Z in *. change (1 + 1)%Z with 2%Z in *.
  change (2 + 1)%Z with 3%Z in *.
  split; [apply Hstep; exact Hi|].
  repeat split; lra.
Qed.

Lemma X12_lights_on_a_square_witness :
  List.length pointLights_init = 4%nat /\ (0 <= 1 < 3)%Z /\
  let p := light (animateLights 2 pointLights_init) in
  (vx (p (1 + 1)%Z) = vz (p 1%Z) /\ vz (p (1 + 1)%Z) = - vx (p 1%Z)) /\
  (vx (p 2%Z) = - vx (p 0%Z) /\ vz (p 2%Z) = - vz (p 0%Z)) /\
  (vx (p 3%Z) = - vx (p 1%Z) /\ vz (p 3%Z) = - vz (p 1%Z)) /\
  vx (p 0%Z) + vx (p 1%Z) + vx (p 2%Z) + vx (p 3%Z) = 0 /\
  vz (p 0%Z) + vz (p 1%Z) + vz (p 2%Z) + vz (p 3%Z) = 0.
Proof.
  split; [reflexivity|]. split; [lia|].
  apply (X12_lights_on_a_square 2 pointLights_init 1); [reflexivity|lia].
Defined.

(** X13: the model matrix is a rotation about the vertical axis.  It
    sends a point to a point with the same height, the same distance to
    the axis and the same distance to the origin, and at time 0 it is the
    identity. *)
Theorem X13_model_spins_about_axis g_time p :
  let q := transform (modelMatrix g_time) (point p) in
  ww q = 1 /\
  vy (xyz q) = vy p /\
  axisDistance2 (xyz q) = axisDistance2 p /\
  dot (xyz q) (xyz q) = dot p p /\
  modelMatrix 0 = identity.
Proof.
  intros q. subst q. rewrite modelMatrix_eq.
  unfold transform, point, xyz, vadd4, vscale4, axisDistance2, dot.
  cbn [col0 col1 col2 col3 wx wy wz ww vx vy vz].
  pose proof (sin_cos_sq (g_time * 0.25)) as H.
  split; [ring|]. split; [ring|]. split; [nra|]. split; [nra|].
  rewrite modelMatrix_eq. rewrite Rmult_0_l, sin_0, cos_0.
  unfold identity. now rewrite Ropp_0.
Qed.

(** X14: at every time the sculpture turns inside the orbit of the lights,
    and the camera turns outside it.  After the model transform a vertex
    of a grid of at least two rings is at most 1.4 from the axis; every
    light is exactly 1.8 from it, at a height between 0.6 and 1.4; the
    camera is 6.5 from it, at height 3. *)
Theorem X14_lights_outside_surface
    rowRings colSegments g_time0 g_time r c lights i :
  (2 <= rowRings <= Int32.INT_MAX)%Z -> (colSegments <= Int32.INT_MAX)%Z ->
  (0 <= r < rowRings)%Z -> (0 <= c < colSegments)%Z ->
  List.length lights = 4%nat -> (0 <= i < 4)%Z ->
  let vtx := sampleVertex rowRings colSegments g_time0 r c in
  let world := xyz (transform (modelMatrix g_time) (point (pos vtx))) in
  let L := light (animateLights g_time lights) i in
  let cam := cameraPosition g_time in
  In vtx (makeVertices rowRings colSegments g_time0) /\
  sqrt (axisDistance2 world) <= 1.4 /\
  sqrt (axisDistance2 L) = 1.8 /\
  sqrt (axisDistance2 cam) = 6.5 /\
  0.6 <= vy L <= 1.4 /\
  vy cam = 3.
Proof.
  intros Hrr Hcs Hr Hc Hlen Hi vtx world L cam.
  destruct (model_keeps_axis_distance g_time (pos vtx)) as [Hy Hd].
  destruct (sample_in_shell rowRings colSegments g_time0 r c Hrr Hr)
    as [_ [Hrad _]].
  split; [|split; [|split; [|split; [|split]]]].
  - apply makeVertices_In; [lia|exact Hcs|]. now exists r, c.
  - subst world. rewrite Hd. apply Hrad.
  - subst L. rewrite light_animated by assumption.
    unfold axisDistance2. cbn [vx vz].
    pose proof (sin_cos_sq (orbitAngle g_time i)) as H.
    replace (1.8 * sin (orbitAngle g_time i) * (1.8 * sin (orbitAngle g_time i)) +
             1.8 * cos (orbitAngle g_time i) * (1.8 * cos (orbitAngle g_time i)))
      with (1.8 * 1.8) by nra.
    apply sqrt_square. lra.
  - subst cam. unfold cameraPosition, axisDistance2. cbv zeta. cbn [vx vz].
    pose proof (sin_cos_sq (g_time * 0.3)) as H.
    replace (sin (g_time * 0.3) * 6.5 * (sin (g_time * 0.3) * 6.5) +
             cos (g_time * 0.3) * 6.5 * (cos (g_time * 0.3) * 6.5))
      with (6.5 * 6.5) by nra.
    apply sqrt_square. lra.
  - subst L. rewrite light_animated by assumption. cbn [vy].
    pose proof (SIN_bound (g_time * 1.3 + IZR i)) as H. lra.
  - subst cam. unfold cameraPosition. cbv zeta. cbn [vy]. lra.
Qed.

Lemma X14_lights_outside_surface_witness :
  (2 <= 140 <= Int32.INT_MAX)%Z /\ (180 <= Int32.INT_MAX)%Z /\
  (0 <= 70 < 140)%Z /\ (0 <= 45 < 180)%Z /\
  List.length pointLights_init = 4%nat /\ (0 <= 3 < 4)%Z /\
  let vtx := sampleVertex 140 180 0 70 45 in
  let world := xyz (transform (modelMatrix 2) (point (pos vtx))) in
  let L := light (animateLights 2 pointLights_init) 3 in
  let cam := cameraPosition 2 in
  In vtx (makeVertices 140 180 0) /\
  sqrt (axisDistance2 world) <= 1.4 /\
  sqrt (axisDistance2 L) = 1.8 /\
  sqrt (axisDistance2 cam) = 6.5 /\
  0.6 <= vy L <= 1.4 /\
  vy cam = 3.
Proof.
  split; [unfold Int32.INT_MAX; lia|]. split; [unfold Int32.INT_MAX; lia|].
  split; [lia|]. split; [lia|]. split; [reflexivity|]. split; [lia|].
  apply (X14_lights_outside_surface 140 180 0 2 70 45 pointLights_init 3);
    try reflexivity; unfold Int32.INT_MAX; lia.
Defined.

(** X15: the view matrix puts the camera at the origin and the centre of
    the sculpture straight ahead of it, on the negative z axis, at the
    constant distance sqrt(51.25) (about 7.16), whatever the time. *)
Theorem X15_view_centres_sculpture g_time :
  transform (makeView g_time) (point (cameraPosition g_time)) = mkVec4 0 0 0 1 /\
  transform (makeView g_time) (point (mkVec3 0 0 0)) =
    mkVec4 0 0 (- sqrt 51.25) 1 /\
  sqrt (dot (cameraPosition g_time) (cameraPosition g_time)) = sqrt 51.25.
Proof.
  split; [apply lookAt_eye_to_origin|]. split.
  - rewrite makeView_eq.
    unfold transform, point, vadd4, vscale4.
    cbn [col0 col1 col2 col3 wx wy wz ww vx vy vz].
    f_equal; ring.
  - f_equal. unfold cameraPosition, dot. cbv zeta. cbn [vx vy vz].
    pose proof (sin_cos_sq (g_time * 0.3)) as H. nra.
Qed.

(** X16: the camera position sent to the shader is the position of
    makeView.  For any matrix inv that is an inverse of the view matrix
    (inv * view = identity, what glm::inverse returns), the first three
    components of its last column are (6.5 sin(0.3 t), 3, 6.5 cos(0.3 t)). *)
Theorem X16_camera_position_recovered g_time inv :
  mat_mul inv (makeView g_time) = identity ->
  xyz (col3 inv) = cameraPosition g_time /\
  ww (col3 inv) = 1.
Proof.
  intros Hinv.
  assert (Hcol : col3 inv = point (cameraPosition g_time)).
  { rewrite col3_transform.
    rewrite <- (lookAt_eye_to_origin (cameraPosition g_time)
                  (mkVec3 0 0 0) (mkVec3 0 1 0)).
    fold (makeView g_time).
    now rewrite <- transform_mat_mul, Hinv, transform_identity. }
  rewrite Hcol. split; [|reflexivity].
  unfold xyz, point. cbn [wx wy wz]. now destruct (cameraPosition g_time).
Qed.

Lemma X16_camera_position_recovered_witness :
  mat_mul (cameraFrame 0) (makeView 0) = identity /\
  xyz (col3 (cameraFrame 0)) = cameraPosition 0 /\
  ww (col3 (cameraFrame 0)) = 1.
Proof.
  split; [apply cameraFrame_left_inverse|].
  apply (X16_camera_position_recovered 0 (cameraFrame 0)).
  apply cameraFrame_left_inverse.
Defined.

(** X17: the lights come back to the same positions every 20*pi seconds
    (about 62.8 s): 0.7 * 20*pi and 1.3 * 20*pi are both whole numbers of
    turns. *)
Theorem X17_lights_period g_time lights :
  List.length lights = 4%nat ->
  animateLights (g_time + 20 * PI) lights = animateLights g_time lights.
Proof.
  intros Hlen.
  destruct (length_four lights Hlen) as [a [b [c [d ->]]]].
  rewrite !animateLights_four.
  apply map_ext. intros i.
  assert (Ha : orbitAngle (g_time + 20 * PI) i =
               orbitAngle g_time i + 2 * INR 7 * PI)
    by (unfold orbitAngle; simpl; lra).
  assert (Hb : (g_time + 20 * PI) * 1.3 + IZR i =
               g_time * 1.3 + IZR i + 2 * INR 13 * PI)
    by (simpl; lra).
  now rewrite Ha, Hb, !sin_period, cos_period.
Qed.

Lemma X17_lights_period_witness :
  List.length pointLights_init = 4%nat /\
  animateLights (0 + 20 * PI) pointLights_init =
    animateLights 0 pointLights_init.
Proof.
  split; [reflexivity|].
  apply (X17_lights_period 0 pointLights_init). reflexivity.
Defined.

(** X19: nothing of the scene is clipped in depth.  At every time, a
    vertex of a grid of at least two rings, after the model and the view
    transforms, and a light, after the view transform, lie in front of the
    camera at a depth strictly between the near plane 0.1 and the far
    plane 100 given to glm::perspective (in fact between 4.8 and 9.5). *)
Theorem X19_scene_within_depth_range
    rowRings colSegments g_time0 g_time r c lights i :
  (2 <= rowRings <= Int32.INT_MAX)%Z ->
  (0 <= r < rowRings)%Z -> (0 <= c < colSegments)%Z ->
  List.length lights = 4%nat -> (0 <= i < 4)%Z ->
  let vtx := sampleVertex rowRings colSegments g_time0 r c in
  let zv := wz (transform (makeView g_time)
                  (transform (modelMatrix g_time) (point (pos vtx)))) in
  let zl := wz (transform (makeView g_time)
                  (point (light (animateLights g_time lights) i))) in
  (zNear < 4.8 <= - zv /\ - zv <= 9.5 < zFar) /\
  (zNear < 4.8 <= - zl /\ - zl <= 9.5 < zFar).
Proof.
  intros Hrr Hr _ Hlen Hi vtx zv zl.
  pose proof sqrt_5125_range as Hn.
  assert (Hzv : - sqrt 51.25 - 2.06 <= zv <= - sqrt 51.25 + 2.06).
  { destruct (model_is_rigid g_time (pos vtx))
      as [Hw [_ [_ Hdot]]].
    subst zv.
    replace (transform (modelMatrix g_time) (point (pos vtx)))
      with (point (xyz (transform (modelMatrix g_time) (point (pos vtx))))).
    2:{ destruct (transform (modelMatrix g_time) (point (pos vtx))) as [a b c0 d].
        unfold point, xyz. cbn [wx wy wz vx vy vz]. cbn [ww] in Hw. now rewrite Hw. }
    apply view_depth_bound; [lra|]. rewrite Hdot.
    destruct (sample_in_shell rowRings colSegments g_time0 r c Hrr Hr)
      as [Hy [Hrad Heq]].
    fold vtx in Hy, Hrad, Heq.
    assert (Ha : axisDistance2 (pos vtx) <= 1.4 * 1.4).
    { unfold vtx. rewrite axisDistance2_sample.
      pose proof (radius_bounds rowRings colSegments g_time0 r c). nra. }
    unfold axisDistance2 in Ha. unfold dot. nra. }
  assert (Hzl : - sqrt 51.25 - 2.29 <= zl <= - sqrt 51.25 + 2.29).
  { subst zl. apply view_depth_bound; [lra|].
    rewrite light_animated by assumption. unfold dot. cbn [vx vy vz].
    pose proof (sin_cos_sq (orbitAngle g_time i)) as H.
    pose proof (SIN_bound (g_time * 1.3 + IZR i)) as Hs. nra. }
  unfold zNear, zFar. repeat split; lra.
Qed.

Lemma X19_scene_within_depth_range_witness :
  (2 <= 140 <= Int32.INT_MAX)%Z /\
  (0 <= 70 < 140)%Z /\ (0 <= 45 < 180)%Z /\
  List.length pointLights_init = 4%nat /\ (0 <= 3 < 4)%Z /\
  let vtx := sampleVertex 140 180 0 70 45 in
  let zv := wz (transform (makeView 2)
                  (transform (modelMatrix 2) (point (pos vtx)))) in
  let zl := wz (transform (makeView 2)
                  (point (light (animateLights 2 pointLights_init) 3))) in
  (zNear < 4.8 <= - zv /\ - zv <= 9.5 < zFar) /\
  (zNear < 4.8 <= - zl /\ - zl <= 9.5 < zFar).
Proof.
  split; [unfold Int32.INT_MAX; lia|]. split; [lia|]. split; [lia|].
  split; [reflexivity|]. split; [lia|].
  apply (X19_scene_within_depth_range 140 180 0 2 70 45 pointLights_init 3);
    try reflexivity; unfold Int32.INT_MAX; lia.
Defined.

End SceneExtras.

(** * A further property in binary32 *)

Section Float32Extras.

Import Float32.

(** X18: in binary32 the y-component of the stored normal is a zero (+0 or
    -0), not merely small, whenever the two components of the tangent are
    finite and the factor inversesqrt(dot(n, n)) applied by glm::normalize
    is finite: the products by the zeros of tY are exact, and no rounding
    comes in. *)
Theorem X18_normal_y_is_zero_binary32 radius sinTheta cosTheta :
  is_finite (fmul (fneg radius) sinTheta) = true ->
  is_finite (fmul radius cosTheta) = true ->
  is_finite
    (inversesqrt
       (dot (cross (mkVec3 (fmul (fneg radius) sinTheta) zero (fmul radius cosTheta))
                   (mkVec3 zero one zero))
            (cross (mkVec3 (fmul (fneg radius) sinTheta) zero (fmul radius cosTheta))
                   (mkVec3 zero one zero)))) = true ->
  is_zero (vy (sampleNormal radius sinTheta cosTheta)) = true.
Proof.
  intros Hx Hz Hk. now apply sampleNormal_y_zero.
Qed.

Lemma X18_normal_y_is_zero_binary32_witness :
  is_finite (fmul (fneg one) zero) = true /\
  is_finite (fmul one one) = true /\
  is_finite
    (inversesqrt
       (dot (cross (mkVec3 (fmul (fneg one) zero) zero (fmul one one))
                   (mkVec3 zero one zero))
            (cross (mkVec3 (fmul (fneg one) zero) zero (fmul one one))
                   (mkVec3 zero one zero)))) = true /\
  is_zero (vy (sampleNormal one zero one)) = true.
Proof.
  split; [reflexivity|]. split; [reflexivity|]. split; [reflexivity|].
  apply (X18_normal_y_is_zero_binary32 one zero one); reflexivity.
Defined.

End Float32Extras.
